(** * Text preparation pipeline of the handwriting SVG generator ([run.py])

    A shallow embedding of [validate_text], [wrap_text],
    [wrap_text_to_width] and of the part of [main] that runs once the
    input text has been read, together with the pieces of the Python
    runtime they rely on ([str.split], [str.strip], [textwrap.wrap],
    [int / float] and [int(float)]).

    Python strings are lists of Unicode code points; Python [int] is [Z];
    Python [float] is IEEE binary64 as specified by [SpecFloat]. *)

From Stdlib Require Import ZArith List Bool Ascii String Lia.
From Stdlib Require Import Floats.SpecFloat.
From stdpp Require Import base numbers list gmap sets.

Set Default Proof Using "Type".

(** ** Characters and strings *)

(** A character is its Unicode code point. *)
Abbreviation char := N (only parsing).
Abbreviation str := (list N) (only parsing).

Definition ord (a : ascii) : char := N_of_ascii a.

(** ASCII literal to Python string (for readable examples). *)
Definition s2l (s : string) : str := map ord (list_ascii_of_string s).

Definition chr_tab : char := 9%N.
Definition chr_newline : char := 10%N.
Definition chr_vt : char := 11%N.
Definition chr_ff : char := 12%N.
Definition chr_cr : char := 13%N.
Definition chr_space : char := 32%N.
Definition chr_bang : char := 33%N.
Definition chr_dquote : char := 34%N.
Definition chr_amp : char := 38%N.
Definition chr_quote : char := 39%N.
Definition chr_comma : char := 44%N.
Definition chr_hyphen : char := 45%N.
Definition chr_period : char := 46%N.
Definition chr_question : char := 63%N.
Definition chr_underscore : char := 95%N.
Definition chr_backtick : char := 96%N.
Definition chr_lsquo : char := 8216%N.    (* U+2018 *)
Definition chr_rsquo : char := 8217%N.    (* U+2019 *)
Definition chr_endash : char := 8211%N.   (* U+2013 *)
Definition chr_emdash : char := 8212%N.   (* U+2014 *)
Definition chr_ellipsis : char := 8230%N. (* U+2026 *)

(** [c in s] for a one-character [c]. *)
Definition in_str (c : char) (s : str) : bool := existsb (N.eqb c) s.

(** [len(s)] *)
Definition len {A} (s : list A) : Z := Z.of_nat (length s).

(** [''.join(pieces)] *)
Definition join_empty (pieces : list str) : str := concat pieces.

(** ** Outcomes of Python computations *)

Inductive exn := ValueError | OverflowError | ZeroDivisionError.

(** [Diverge] is only produced when a bounded loop of the model exhausts
    its bound; the bounds are shown to be sufficient below (lemmas
    [wrap_positive] and [main_ends]). *)
Inductive outcome (A : Type) :=
| Return (a : A)
| Raise (e : exn)
| Diverge.
Arguments Return {A} a.
Arguments Raise {A} e.
Arguments Diverge {A}.

#[global] Instance outcome_ret : MRet outcome := fun A a => Return a.

#[global] Instance outcome_bind : MBind outcome := fun A B k m =>
  match m with
  | Return a => k a
  | Raise e => Raise e
  | Diverge => Diverge
  end.

(** ** Python string operations *)

(** [str.isspace] for one character (CPython's [_PyUnicode_IsWhitespace]). *)
Definition py_isspace (c : char) : bool :=
  ((9 <=? c) && (c <=? 13) || (28 <=? c) && (c <=? 32)
   || (c =? 133) || (c =? 160) || (c =? 5760)
   || (8192 <=? c) && (c <=? 8202)
   || (c =? 8232) || (c =? 8233) || (c =? 8239) || (c =? 8287)
   || (c =? 12288))%N.

Fixpoint lstrip (s : str) : str :=
  match s with
  | [] => []
  | c :: s' => if py_isspace c then lstrip s' else s
  end.

Definition rstrip (s : str) : str := rev (lstrip (rev s)).

(** [s.strip()] *)
Definition strip (s : str) : str := rstrip (lstrip s).

(** Truth value of a string or list: [not x] is [is_empty x]. *)
Definition is_empty {A} (l : list A) : bool :=
  match l with [] => true | _ => false end.

(** [s.split(sep)] for a one-character separator: never the empty list. *)
Fixpoint split (s : str) (sep : char) : list str :=
  match s with
  | [] => [[]]
  | c :: s' =>
    if N.eqb c sep then [] :: split s' sep
    else match split s' sep with
         | p :: ps => (c :: p) :: ps
         | [] => [[c]]
         end
  end.

(** Index normalisation of a slice bound against a sequence of length [n]
    (negative bounds count from the end; all bounds are clipped). *)
Definition slice_index (n i : Z) : nat :=
  Z.to_nat (if (i <? 0)%Z then Z.max 0 (n + i) else Z.min i n).

(** [s[:e]] and [s[b:]] *)
Definition slice_to {A} (s : list A) (e : Z) : list A :=
  take (slice_index (len s) e) s.
Definition slice_from {A} (s : list A) (b : Z) : list A :=
  drop (slice_index (len s) b) s.

(** [s[a:b]] for indices already within range. *)
Definition substr (s : str) (a b : nat) : str := take (b - a) (drop a s).

(** Highest index, counted from [i] for the head, at which [c] occurs;
    [-1] when it does not occur. *)
Fixpoint last_index (c : char) (s : str) (i : Z) : Z :=
  match s with
  | [] => (-1)%Z
  | x :: s' =>
    let r := last_index c s' (i + 1)%Z in
    if (0 <=? r)%Z then r else if N.eqb x c then i else (-1)%Z
  end.

(** [s.rfind(c, 0, e)] *)
Definition rfind (s : str) (c : char) (e : Z) : Z :=
  last_index c (slice_to s e) 0.

(** [s.expandtabs(tabsize)], with the current column [col]. *)
Fixpoint expandtabs_from (tabsize col : Z) (s : str) : str :=
  match s with
  | [] => []
  | c :: s' =>
    if N.eqb c chr_tab then
      if (0 <? tabsize)%Z then
        let incr := (tabsize - col mod tabsize)%Z in
        repeat chr_space (Z.to_nat incr) ++ expandtabs_from tabsize (col + incr)%Z s'
      else expandtabs_from tabsize col s'
    else
      c :: expandtabs_from tabsize
             (if N.eqb c chr_newline || N.eqb c chr_cr then 0 else col + 1)%Z s'
  end.

Definition expandtabs (s : str) (tabsize : Z) : str := expandtabs_from tabsize 0 s.

(** ** [textwrap.wrap] (CPython 3.11, [Lib/textwrap.py])

    The standard-library routine called by [wrap_text], for a
    [TextWrapper] with the attributes [textwrap.wrap(para, width=w,
    break_long_words=True)] gives it: empty indents, [expand_tabs],
    [replace_whitespace], [drop_whitespace], [break_on_hyphens],
    [tabsize = 8], no [fix_sentence_endings], no [max_lines]. *)
Module textwrap.

Definition _whitespace : str :=
  [chr_tab; chr_newline; chr_vt; chr_ff; chr_cr; chr_space].

(** [text.translate(unicode_whitespace_trans)] *)
Definition translate_whitespace (text : str) : str :=
  map (fun c => if in_str c _whitespace then chr_space else c) text.

Definition _munge_whitespace (text : str) : str :=
  translate_whitespace (expandtabs text 8).

Section Regex.

(** The Unicode database predicates behind the classes [\w] and [\d] of
    [re]: [str.isalnum] and [str.isdecimal] on one character.  They
    belong to the Python runtime and are parameters here. *)
Variable isalnum : char -> bool.
Variable isdecimal : char -> bool.

(** [[\t\n\x0b\x0c\r ]] *)
Definition is_ws (c : char) : bool := in_str c _whitespace.
Definition is_nws (c : char) : bool := negb (is_ws c).
Definition is_hyphen (c : char) : bool := N.eqb c chr_hyphen.
(** [\w] *)
Definition is_word (c : char) : bool := isalnum c || N.eqb c chr_underscore.
(** [word_punct]: a word character or one of [! & . , ?], the double
    quote and the apostrophe. *)
Definition is_word_punct (c : char) : bool :=
  is_word c
  || in_str c [chr_bang; chr_dquote; chr_quote; chr_amp; chr_period;
               chr_comma; chr_question].
(** [letter = [^\d\W]] *)
Definition is_letter (c : char) : bool := negb (isdecimal c) && is_word c.

(** The character at position [i] satisfies [p]. *)
Definition at_pos (p : char -> bool) (s : str) (i : nat) : bool :=
  match s !! i with Some c => p c | None => false end.

(** The character [k] places before position [i] satisfies [p]. *)
Definition before_pos (p : char -> bool) (s : str) (i k : nat) : bool :=
  if (k <=? i)%nat then at_pos p s (i - k) else false.

(** Length of the longest run of [p]-characters at the head. *)
Fixpoint run (p : char -> bool) (s : str) : nat :=
  match s with
  | c :: s' => if p c then S (run p s') else 0
  | [] => 0
  end.

(** [-{2,}] followed by [(?=\w)] at position [i], given a run of [j]
    hyphens there: greedy, giving hyphens back one at a time. *)
Fixpoint hyphens_then_word (s : str) (i j : nat) : option nat :=
  match j with
  | S (S _ as j') =>
    if at_pos is_word s (i + j) then Some (i + j)
    else hyphens_then_word s i j'
  | _ => None
  end.

(** [(?<=wp) -{2,} (?=\w)] at position [i]: the end of the match. *)
Definition match_emdash (s : str) (i : nat) : option nat :=
  if at_pos is_hyphen s i && before_pos is_word_punct s i 1
  then hyphens_then_word s i (run is_hyphen (drop i s))
  else None.

(** The branch [-(?:(?<=lt{2}-)|(?<=lt-lt-))(?=lt -? lt)] tried at
    position [p]; the match then ends at [p + 1]. *)
Definition hyphenated_at (s : str) (p : nat) : bool :=
  at_pos is_hyphen s p
  && (before_pos is_letter s (p + 1) 3 && before_pos is_letter s (p + 1) 2
      || before_pos is_letter s (p + 1) 4 && before_pos is_hyphen s (p + 1) 3
         && before_pos is_letter s (p + 1) 2)
  && at_pos is_letter s (p + 1)
  && (at_pos is_hyphen s (p + 2) && at_pos is_letter s (p + 3)
      || at_pos is_letter s (p + 2)).

(** The branch [(?<=wp)(?=-{2,}\w)] tried at position [p]. *)
Definition before_emdash_at (s : str) (p : nat) : bool :=
  at_pos is_hyphen s p && before_pos is_word_punct s p 1
  && bool_decide (is_Some (hyphens_then_word s p (run is_hyphen (drop p s)))).

(** The lazy [nws+?] followed by its three endings.  [p] is the position
    reached so far (at least one character is already taken) and [rest]
    is the text from [p] on. *)
Fixpoint word_end (s : str) (p : nat) (rest : str) : option nat :=
  if hyphenated_at s p then Some (S p)
  else match rest with
       | [] => Some p
       | c :: rest' =>
         if is_ws c then Some p
         else if before_emdash_at s p then Some p
         else word_end s (S p) rest'
       end.

(** [wordsep_re.match(s, i)]: the end of the match, if any. *)
Definition wordsep_match (s : str) (i : nat) : option nat :=
  match drop i s with
  | [] => None
  | c :: rest =>
    if is_ws c then Some (i + run is_ws (c :: rest))
    else match match_emdash s i with
         | Some e => Some e
         | None => word_end s (S i) rest
         end
  end.

(** [wordsep_re.split(s)]: the text before each match, the match (its
    only group), ..., and the text after the last match.  [last] is the
    end of the previous match, [pos] the position where the search goes
    on; every step moves [pos] forward, so [n = length s] steps reach
    the end of the text (lemma [re_split_from_steps]). *)
Fixpoint re_split_from (s : str) (n last pos : nat) : list str :=
  match n with
  | 0 => [substr s last (length s)]
  | S n' =>
    match wordsep_match s pos with
    | Some e => substr s last pos :: substr s pos e :: re_split_from s n' e e
    | None => re_split_from s n' last (S pos)
    end
  end.

Definition re_split (s : str) : list str := re_split_from s (length s) 0 0.

(** [_split]: [[c for c in wordsep_re.split(text) if c]] *)
Definition _split (text : str) : list str :=
  filter (fun c => negb (is_empty c)) (re_split text).

Definition _split_chunks (text : str) : list str :=
  _split (_munge_whitespace text).

End Regex.

(** A chunk [c] with [c.strip() == '']. *)
Definition is_blank (c : str) : bool := is_empty (strip c).

(** The stack [reversed_chunks] is kept with its top (Python's
    [chunks[-1]], the next chunk of the text) at the head of the list. *)

(** [_handle_long_word]: returns the updated [reversed_chunks] and
    [cur_line]. *)
Definition _handle_long_word (reversed_chunks cur_line : list str)
    (cur_len width : Z) : list str * list str :=
  let space_left := if (width <? 1)%Z then 1%Z else (width - cur_len)%Z in
  match reversed_chunks with
  | [] => (reversed_chunks, cur_line)  (* not called on an empty stack *)
  | chunk :: below =>
    let end_ :=
      if (space_left <? len chunk)%Z then
        let hyphen := rfind chunk chr_hyphen space_left in
        if (0 <? hyphen)%Z
           && existsb (fun c => negb (N.eqb c chr_hyphen)) (slice_to chunk hyphen)
        then (hyphen + 1)%Z else space_left
      else space_left in
    (slice_from chunk end_ :: below, cur_line ++ [slice_to chunk end_])
  end.

(** The inner [while chunks] loop: move chunks onto the current line
    while they fit. *)
Fixpoint fill_line (width : Z) (chunks cur_line : list str) (cur_len : Z)
    : list str * list str * Z :=
  match chunks with
  | [] => (chunks, cur_line, cur_len)
  | c :: below =>
    if (cur_len + len c <=? width)%Z
    then fill_line width below (cur_line ++ [c]) (cur_len + len c)%Z
    else (chunks, cur_line, cur_len)
  end.

(** [sum(map(len, cur_line))] *)
Definition sum_len (cur_line : list str) : Z :=
  fold_right (fun c n => (len c + n)%Z) 0%Z cur_line.

(** One pass through the body of the outer [while chunks] loop, entered
    with a non-empty stack whose top is [top]: the stack and the lines
    after the pass. *)
Definition wrap_pass (width : Z) (top : str) (below lines : list str)
    : list str * list str :=
  let chunks := top :: below in
  (* first chunk on line is whitespace: drop it, unless no line started *)
  let chunks :=
    if is_blank top && negb (is_empty lines) then below else chunks in
  let '(chunks, cur_line, cur_len) := fill_line width chunks [] 0 in
  (* the next chunk is too big to fit on any line *)
  let '(chunks, cur_line, cur_len) :=
    match chunks with
    | c :: _ =>
      if (width <? len c)%Z then
        let '(chunks', cur_line') := _handle_long_word chunks cur_line cur_len width in
        (chunks', cur_line', sum_len cur_line')
      else (chunks, cur_line, cur_len)
    | [] => (chunks, cur_line, cur_len)
    end in
  (* if the last chunk on this line is all whitespace, drop it *)
  let '(cur_line, cur_len) :=
    match last cur_line with
    | Some c =>
      if is_blank c then (removelast cur_line, (cur_len - len c)%Z)
      else (cur_line, cur_len)
    | None => (cur_line, cur_len)
    end in
  (chunks, if is_empty cur_line then lines else lines ++ [join_empty cur_line]).

(** The outer [while chunks] loop, at most [n] passes. *)
Fixpoint wrap_loop (n : nat) (width : Z) (chunks lines : list str)
    : option (list str) :=
  match chunks with
  | [] => Some lines
  | top :: below =>
    match n with
    | 0 => None
    | S n' =>
      let '(chunks', lines') := wrap_pass width top below lines in
      wrap_loop n' width chunks' lines'
    end
  end.

(** [_wrap_chunks].  Every pass removes at least one character from the
    stack, so [S (sum_len chunks)] passes are enough. *)
Definition _wrap_chunks (width : Z) (chunks : list str) : outcome (list str) :=
  if (width <=? 0)%Z then Raise ValueError
  else match wrap_loop (S (Z.to_nat (sum_len chunks))) width chunks [] with
       | Some lines => Return lines
       | None => Diverge
       end.

(** [textwrap.wrap(text, width=width, break_long_words=True)] *)
Definition wrap (isalnum isdecimal : char -> bool) (text : str) (width : Z)
    : outcome (list str) :=
  _wrap_chunks width (_split_chunks isalnum isdecimal text).

End textwrap.

(** [str.isalnum] and [str.isdecimal] restricted to ASCII: a sample of the
    Unicode tables on which the model can be run. *)
Definition ascii_isdecimal (c : char) : bool := ((48 <=? c) && (c <=? 57))%N.
Definition ascii_isalnum (c : char) : bool :=
  (ascii_isdecimal c || (65 <=? c) && (c <=? 90) || (97 <=? c) && (c <=? 122))%N.

(** ** [validate_text] *)

Section AlphabetFilter.

(** [drawing.alphabet]: the list of characters the model can render.  The
    module [drawing] is not among the sources at hand, so the list is a
    parameter. *)
Variable alphabet : list char.

(** [VALID_CHARS = set(alphabet)] *)
Definition VALID_CHARS : gset char := list_to_set alphabet.

(** Loop state of [validate_text]: the set [invalid_chars] and the list
    [cleaned] of pieces appended so far. *)
Definition validate_state : Type := gset char * list str.

(** One iteration of [for char in text]. *)
Definition validate_char (st : validate_state) (c : char) : validate_state :=
  let '(invalid_chars, cleaned) := st in
  if bool_decide (c ∈ VALID_CHARS) then (invalid_chars, cleaned ++ [[c]])
  else if N.eqb c chr_newline then (invalid_chars, cleaned ++ [[c]])
  else if N.eqb c chr_tab then (invalid_chars, cleaned ++ [[chr_space]])
  else
    let invalid_chars := {[c]} ∪ invalid_chars in
    if in_str c [chr_dquote; chr_dquote] then
      (invalid_chars, cleaned ++ [[chr_dquote]])
    else if in_str c [chr_quote; chr_lsquo; chr_rsquo; chr_backtick] then
      (invalid_chars, cleaned ++ [[chr_quote]])
    else if in_str c [chr_endash; chr_emdash] then
      (invalid_chars, cleaned ++ [[chr_hyphen]])
    else if in_str c [chr_ellipsis] then
      (invalid_chars, cleaned ++ [[chr_period; chr_period; chr_period]])
    else (invalid_chars, cleaned).

Definition validate_loop (text : str) (st : validate_state) : validate_state :=
  fold_left validate_char text st.

(** The set named in the warning
    [Warning: Removed unsupported characters: {invalid_chars}];
    the warning is printed when the set is not empty. *)
Definition validate_text_invalid (text : str) : gset char :=
  fst (validate_loop text (∅, [])).

Definition validate_text_warning (text : str) : option (gset char) :=
  let invalid_chars := validate_text_invalid text in
  if bool_decide (invalid_chars = ∅) then None else Some invalid_chars.

(** The returned string [''.join(cleaned)]. *)
Definition validate_text (text : str) : str :=
  join_empty (snd (validate_loop text (∅, []))).

End AlphabetFilter.

(** ** [wrap_text] *)

Section LineWrapper.

Variable isalnum : char -> bool.
Variable isdecimal : char -> bool.

(** The lines one paragraph adds to [lines] (the body of
    [for para in paragraphs]). *)
Definition wrap_paragraph (max_chars : Z) (para : str) : outcome (list str) :=
  if is_empty (strip para) then Return [[]]
  else
    wrapped ← textwrap.wrap isalnum isdecimal para max_chars;
    Return (if is_empty wrapped then [[]] else wrapped).

Fixpoint wrap_paragraphs (max_chars : Z) (paragraphs : list str)
    (lines : list str) : outcome (list str) :=
  match paragraphs with
  | [] => Return lines
  | para :: paragraphs' =>
    new ← wrap_paragraph max_chars para;
    wrap_paragraphs max_chars paragraphs' (lines ++ new)
  end.

Definition wrap_text (text : str) (max_chars : Z) : outcome (list str) :=
  let max_chars := Z.min max_chars 75 in
  let paragraphs := split text chr_newline in
  wrap_paragraphs max_chars paragraphs [].

End LineWrapper.

(** ** Python floats *)

Module pyfloat.

Definition prec : Z := 53.
Definition emax : Z := 1024.

Definition float := spec_float.

(** Conversion of an [int] operand to [float]: correctly rounded, and
    [OverflowError] when the result is not finite. *)
Definition of_int (n : Z) : outcome float :=
  match binary_normalize prec emax n 0 false with
  | S754_infinity _ => Raise OverflowError
  | x => Return x
  end.

Definition mul (x y : float) : float := SFmul prec emax x y.

(** [x / y] on floats. *)
Definition truediv (x y : float) : outcome float :=
  match y with
  | S754_zero _ => Raise ZeroDivisionError
  | _ => Return (SFdiv prec emax x y)
  end.

(** [int(x)]: truncation towards zero. *)
Definition to_int (x : float) : outcome Z :=
  match x with
  | S754_zero _ => Return 0%Z
  | S754_infinity _ => Raise OverflowError
  | S754_nan => Raise ValueError
  | S754_finite s m e =>
    let a := Z.shiftl (Zpos m) e in
    Return (if s then (- a)%Z else a)
  end.

(** The literal [1.5]. *)
Definition one_and_a_half : float := S754_finite false 6755399441055744 (-52).

(** [x == n] and [x <= n] for a float [x] and an [int] [n].  CPython
    ([float_richcompare]) does not convert [n]: it compares the exact
    values.  The finite float [S754_finite s m e] is the number
    [(-1)^s * m * 2^e]; both sides are multiplied by [2 ^ max 0 (- e)], so
    that the comparison is one of integers.  A NaN compares false and an
    infinity by its sign. *)
Definition eq_int (x : float) (n : Z) : bool :=
  match x with
  | S754_zero _ => (0 =? n)%Z
  | S754_finite s m e =>
    ((if s then - Zpos m else Zpos m) * 2 ^ Z.max 0 e =? n * 2 ^ Z.max 0 (- e))%Z
  | S754_infinity _ | S754_nan => false
  end.

Definition le_int (x : float) (n : Z) : bool :=
  match x with
  | S754_zero _ => (0 <=? n)%Z
  | S754_finite s m e =>
    ((if s then - Zpos m else Zpos m) * 2 ^ Z.max 0 e <=? n * 2 ^ Z.max 0 (- e))%Z
  | S754_infinity s => s
  | S754_nan => false
  end.

End pyfloat.

(** ** [wrap_text_to_width] *)

Section GeometryPlanner.

Variable isalnum : char -> bool.
Variable isdecimal : char -> bool.

(** The value of [max_chars] that [wrap_text_to_width] passes on to
    [wrap_text]. *)
Definition width_max_chars (available_width : Z)
    (scale_factor : pyfloat.float) (avg_char_width : Z) : outcome Z :=
  a ← pyfloat.of_int avg_char_width;
  let char_width := pyfloat.mul a scale_factor in
  w ← pyfloat.of_int available_width;
  q ← pyfloat.truediv w char_width;
  n ← pyfloat.to_int q;
  let max_chars := Z.max 1 n in
  let max_chars := Z.min max_chars 75 in
  Return max_chars.

Definition wrap_text_to_width (text : str) (available_width : Z)
    (scale_factor : pyfloat.float) (avg_char_width : Z) : outcome (list str) :=
  max_chars ← width_max_chars available_width scale_factor avg_char_width;
  wrap_text isalnum isdecimal text max_chars.

(** Default arguments [scale_factor=1.5, avg_char_width=10]. *)
Definition default_scale_factor : pyfloat.float := pyfloat.one_and_a_half.
Definition default_avg_char_width : Z := 10.

End GeometryPlanner.

(** ** [main], from the point where the input text has been read *)

Record Args := {
  arg_output : str;
  arg_style : Z;
  arg_bias : pyfloat.float;
  arg_color : str;
  arg_width : pyfloat.float;
  arg_max_chars : Z;
  arg_left_margin : Z;
  arg_right_margin : Z;
  arg_line_height : Z;
  arg_view_width : Z
}.

(** The arguments of the call [hand.write(...)]. *)
Record WriteCall := {
  filename : str;
  lines : list str;
  biases : list pyfloat.float;
  styles : list Z;
  stroke_colors : list str;
  stroke_widths : list pyfloat.float;
  left_margin : Z;
  right_margin : Z;
  line_height : Z;
  view_width : Z
}.

(** The two [sys.exit(1)] paths after the text has been read. *)
Inductive fatal := No_text_provided | No_valid_text_to_render.

Inductive run_result :=
| Exit1 (message : fatal)
| Uncaught (e : exn)
| NoResult
| Write_svg (svg_height : Z) (call : WriteCall).

Section Main.

Variable alphabet : list char.
Variable isalnum : char -> bool.
Variable isdecimal : char -> bool.

(** The line list [main] computes from the validated text: by
    [wrap_text] when [--max-chars] differs from 75, by
    [wrap_text_to_width] otherwise. *)
Definition main_lines (args : Args) (text : str) : outcome (list str) :=
  let text := validate_text alphabet text in
  let available_width :=
    (arg_view_width args - arg_left_margin args - arg_right_margin args)%Z in
  if negb (arg_max_chars args =? 75)%Z then
    wrap_text isalnum isdecimal text (arg_max_chars args)
  else
    wrap_text_to_width isalnum isdecimal text available_width
      default_scale_factor default_avg_char_width.

Definition main (args : Args) (text : str) : run_result :=
  if is_empty (strip text) then Exit1 No_text_provided
  else
    match main_lines args text with
    | Raise e => Uncaught e
    | Diverge => NoResult
    | Return lines =>
      if is_empty lines then Exit1 No_valid_text_to_render
      else
        let svg_height := (arg_line_height args * (len lines + 1))%Z in
        let n := length lines in
        Write_svg svg_height
          {| filename := arg_output args;
             lines := lines;
             biases := repeat (arg_bias args) n;
             styles := repeat (arg_style args) n;
             stroke_colors := repeat (arg_color args) n;
             stroke_widths := repeat (arg_width args) n;
             left_margin := arg_left_margin args;
             right_margin := arg_right_margin args;
             line_height := arg_line_height args;
             view_width := arg_view_width args |}
    end.

End Main.

(** ** Sample data for running the model *)

(** An alphabet on which the model can be run: blank, the punctuation
    [!#'(),-.:;?], the double quote, the digits and the letters without
    [Q], [X] and [Z], plus the NUL character. *)
Definition sample_alphabet : list char :=
  0%N :: chr_dquote
  :: s2l " !#'(),-.0123456789:;?ABCDEFGHIJKLMNOPRSTUVWYabcdefghijklmnopqrstuvwxyz".

(** The command-line defaults. *)
Definition default_args : Args :=
  {| arg_output := s2l "img/output.svg";
     arg_style := 3;
     arg_bias := S754_finite false 6755399441055744 (-53);        (* 0.75 *)
     arg_color := s2l "#000033";
     arg_width := S754_finite false 5404319552844595 (-52);       (* 1.2 *)
     arg_max_chars := 75;
     arg_left_margin := 50;
     arg_right_margin := 50;
     arg_line_height := 60;
     arg_view_width := 1000 |}.

(** The defaults on a page [2 ^ 1024 + 100] units wide. *)
Definition wide_args : Args :=
  {| arg_output := arg_output default_args;
     arg_style := arg_style default_args;
     arg_bias := arg_bias default_args;
     arg_color := arg_color default_args;
     arg_width := arg_width default_args;
     arg_max_chars := 75;
     arg_left_margin := 50;
     arg_right_margin := 50;
     arg_line_height := 60;
     arg_view_width := 2 ^ 1024 + 100 |}.

(** ** The specification's reading of the alphabet filter *)

(** The replacements tried by [validate_text] for a character that is not
    valid, read as the table the specification calls SubstitutionTable. *)
Definition SubstitutionTable (c : char) : option str :=
  if in_str c [chr_dquote; chr_dquote] then Some [chr_dquote]
  else if in_str c [chr_quote; chr_lsquo; chr_rsquo; chr_backtick] then Some [chr_quote]
  else if in_str c [chr_endash; chr_emdash] then Some [chr_hyphen]
  else if in_str c [chr_ellipsis] then Some [chr_period; chr_period; chr_period]
  else None.

(** The characters that replacements are made of, the blank that stands
    for a tab included. *)
Definition replacement_chars : list char :=
  [chr_space; chr_dquote; chr_quote; chr_hyphen; chr_period].

Section Normalize.

Variable alphabet : list char.

(** [normalize] as the specification words it (section 4.1, steps 1 to
    5): what one character contributes to the text and to the set of
    dropped characters. *)
Definition normalize_char (c : char) : str * gset char :=
  if bool_decide (c ∈ alphabet) then ([c], ∅)
  else if N.eqb c chr_newline then ([c], ∅)
  else if N.eqb c chr_tab then ([chr_space], ∅)
  else match SubstitutionTable c with
       | Some replacement => (replacement, ∅)
       | None => ([], {[c]})
       end.

Definition normalize (rawText : str) : str * gset char :=
  (concat (map (fun c => fst (normalize_char c)) rawText),
   ⋃ (map (fun c => snd (normalize_char c)) rawText)).

(** A character that [validate_text] adds to [invalid_chars]. *)
Definition is_invalid (c : char) : bool :=
  negb (bool_decide (c ∈ alphabet))
  && negb (N.eqb c chr_newline) && negb (N.eqb c chr_tab).

End Normalize.

(** ** The specification's reading of the geometry planner *)

(** [planMaxChars] without an explicit override, as the specification
    words it (section 4.4), for the default [avgCharWidth * scaleFactor]
    of 15: [floor(max(1, availableWidth) / 15)] clamped to [[1, 75]]. *)
Definition planMaxChars (viewWidth leftMargin rightMargin : Z) : Z :=
  let availableWidth := Z.max 1 (viewWidth - leftMargin - rightMargin) in
  Z.min 75 (Z.max 1 (availableWidth / 15)).

(** The value of [avg_char_width * scale_factor] for the defaults: 15.0. *)
Definition fifteen : pyfloat.float := S754_finite false 8444249301319680 (-49).

(** [width_max_chars], for the defaults and the available width [aw],
    gives the limit of [planMaxChars]. *)
Definition width_limit_agrees (aw : Z) : bool :=
  match width_max_chars aw default_scale_factor default_avg_char_width with
  | Return n => (n =? planMaxChars aw 0 0)%Z
  | _ => false
  end.

(** ** [estimate_text_width] *)

(** [len(text) * avg_char_width * scale_factor]: the product of the two
    integers is converted to a float and multiplied by the scale factor. *)
Definition estimate_text_width (text : str) (scale_factor : pyfloat.float)
    (avg_char_width : Z) : outcome pyfloat.float :=
  n ← pyfloat.of_int (len text * avg_char_width);
  Return (pyfloat.mul n scale_factor).

(** The estimate for a text of [n] characters, with the defaults, is the
    number [15 * n] exactly: the float compares equal to that integer, and
    [int] of it is that integer. *)
Definition estimate_is_exact (n : Z) : bool :=
  match
    k ← pyfloat.of_int (n * default_avg_char_width);
    Return (pyfloat.mul k default_scale_factor)
  with
  | Return x =>
    pyfloat.eq_int x (15 * n)
    && match pyfloat.to_int x with
       | Return w => (w =? 15 * n)%Z
       | _ => false
       end
  | _ => false
  end.

(** ** [interactive_mode] *)

(** ['\n'.join(lines)] *)
Fixpoint join_newline (lines : list str) : str :=
  match lines with
  | [] => []
  | [l] => l
  | l :: ls => l ++ chr_newline :: join_newline ls
  end.

(** The [while True] loop.  [inputs] are the strings that the successive
    calls of [input()] return before it raises [EOFError]. *)
Fixpoint interactive_loop (inputs : list str) (lines : list str)
    (empty_count : Z) : list str :=
  match inputs with
  | [] => lines
  | line :: inputs' =>
    if is_empty line then
      let empty_count := (empty_count + 1)%Z in
      if (2 <=? empty_count)%Z then lines
      else interactive_loop inputs' (lines ++ [[]]) empty_count
    else interactive_loop inputs' (lines ++ [line]) 0
  end.

Definition interactive_mode (inputs : list str) : str :=
  join_newline (interactive_loop inputs [] 0).

(** ** [main], from the parsed command line *)

(** The parsed options that select the mode and the source of the text. *)
Record Cli := {
  cli_list_styles : bool;
  cli_file : option str;
  cli_text : option str;
  cli_args : Args
}.

(** Truth value of an optional string ([None] and [''] are false). *)
Definition given (o : option str) : bool :=
  match o with
  | Some s => negb (is_empty s)
  | None => false
  end.

Inductive run_end :=
| Exit0_styles_listed
| Exit1_file_not_found
| Ran (r : run_result).

Section Run.

Variable alphabet : list char.
Variable isalnum : char -> bool.
Variable isdecimal : char -> bool.

(** [read_file path] is the text [f.read()] returns, [None] when opening
    the file raises [FileNotFoundError]; [stdin] are the lines that
    [input()] returns. *)
Definition run (read_file : str -> option str) (stdin : list str) (cli : Cli)
    : run_end :=
  if cli_list_styles cli then Exit0_styles_listed
  else if given (cli_file cli) then
    match read_file (default [] (cli_file cli)) with
    | None => Exit1_file_not_found
    | Some text => Ran (main alphabet isalnum isdecimal (cli_args cli) text)
    end
  else if given (cli_text cli) then
    Ran (main alphabet isalnum isdecimal (cli_args cli) (default [] (cli_text cli)))
  else
    Ran (main alphabet isalnum isdecimal (cli_args cli) (interactive_mode stdin)).

End Run.

(** [c] is one of the whitespace characters of [textwrap] other than the
    blank. *)
Definition is_control_space (c : char) : bool :=
  in_str c [chr_tab; chr_newline; chr_vt; chr_ff; chr_cr].

(** The characters of a string that are not whitespace. *)
Definition non_space (s : str) : str :=
  List.filter (fun c => negb (py_isspace c)) s.

(** * Properties *)

(** ** The alphabet filter *)

Section AlphabetFilterFacts.

Variable alphabet : list char.

Lemma elem_of_VALID_CHARS c : c ∈ VALID_CHARS alphabet ↔ c ∈ alphabet.
Proof. unfold VALID_CHARS. apply elem_of_list_to_set. Qed.

Lemma validate_char_normalize inv cleaned c :
  validate_char alphabet (inv, cleaned) c =
  ((if is_invalid alphabet c then {[c]} ∪ inv else inv),
   cleaned ++ match fst (normalize_char alphabet c) with
              | [] => []
              | piece => [piece]
              end).
Proof.
  unfold validate_char, normalize_char, is_invalid, SubstitutionTable.
  rewrite (bool_decide_ext _ _ (elem_of_VALID_CHARS c)).
  destruct (bool_decide (c ∈ alphabet)); simpl; [done|].
  destruct (N.eqb c chr_newline); simpl; [done|].
  destruct (N.eqb c chr_tab); simpl; [done|].
  repeat (match goal with |- context [if ?b then _ else _] => destruct b end;
          simpl; rewrite ?app_nil_r; try reflexivity).
Qed.

Lemma validate_loop_normalize text inv cleaned :
  validate_loop alphabet text (inv, cleaned) =
  (list_to_set (filter (fun c => is_invalid alphabet c = true) text) ∪ inv,
   cleaned ++ filter (fun p => p ≠ []) (map (fun c => fst (normalize_char alphabet c)) text)).
Proof.
  revert inv cleaned.
  unfold validate_loop.
  induction text as [|c text IH]; intros inv cleaned; cbn [fold_left map].
  - rewrite filter_nil, app_nil_r. f_equal. clear. set_solver.
  - rewrite validate_char_normalize, IH. f_equal.
    + rewrite (filter_cons _ c text).
      destruct (is_invalid alphabet c) eqn:E; case_decide;
        try congruence; try reflexivity.
      rewrite list_to_set_cons. clear. set_solver.
    + rewrite <- app_assoc. f_equal. rewrite (filter_cons _ (fst _)).
      destruct (fst (normalize_char alphabet c)) eqn:E; case_decide;
        simpl; congruence.
Qed.

Lemma concat_filter_nonempty (l : list str) :
  concat (filter (fun p => p ≠ []) l) = concat l.
Proof.
  induction l as [|p l IH]; [done|].
  rewrite filter_cons. destruct (decide (p ≠ [])) as [H|H]; simpl.
  - by rewrite IH.
  - destruct p; [by rewrite IH | by destruct H].
Qed.

(** The text returned by [validate_text] is the text of [normalize]. *)
Lemma validate_text_normalize text :
  validate_text alphabet text = fst (normalize alphabet text).
Proof.
  unfold validate_text, normalize, join_empty.
  rewrite validate_loop_normalize. simpl. apply concat_filter_nonempty.
Qed.

Lemma validate_text_invalid_spec text c :
  c ∈ validate_text_invalid alphabet text ↔
  c ∈ text ∧ (c ∉ alphabet) ∧ c ≠ chr_newline ∧ c ≠ chr_tab.
Proof.
  unfold validate_text_invalid. rewrite validate_loop_normalize. simpl.
  rewrite elem_of_union, elem_of_list_to_set, list_elem_of_filter.
  unfold is_invalid.
  rewrite !andb_true_iff, !negb_true_iff, bool_decide_eq_false, !N.eqb_neq.
  set_solver.
Qed.

Lemma normalize_char_supported c :
  c ∈ alphabet ∨ c = chr_newline → fst (normalize_char alphabet c) = [c].
Proof.
  intros [H | ->]; unfold normalize_char.
  - by rewrite bool_decide_eq_true_2.
  - by destruct (bool_decide (chr_newline ∈ alphabet)).
Qed.

(** On supported characters and newlines the filter changes nothing. *)
Lemma validate_text_id text :
  Forall (fun c => c ∈ alphabet ∨ c = chr_newline) text →
  validate_text alphabet text = text.
Proof.
  rewrite validate_text_normalize. unfold normalize. simpl.
  induction 1 as [|c text Hc _ IH]; simpl; [done|].
  by rewrite normalize_char_supported, IH.
Qed.

Lemma validate_text_invalid_id text :
  Forall (fun c => c ∈ alphabet ∨ c = chr_newline) text →
  validate_text_invalid alphabet text = ∅.
Proof.
  intros H. apply set_eq. intros c. rewrite validate_text_invalid_spec.
  rewrite Forall_forall in H. split; [|set_solver].
  intros (Hin & Hc & Hn & _). destruct (H c Hin); done.
Qed.

Lemma SubstitutionTable_replacement c r x :
  SubstitutionTable c = Some r → x ∈ r → x ∈ replacement_chars.
Proof.
  unfold SubstitutionTable, replacement_chars.
  repeat (match goal with |- context [if ?b then _ else _] => destruct b end);
    intros [= <-]; set_solver.
Qed.

Section Replacements.

(** The characters used as replacements are themselves in the alphabet. *)
Hypothesis replacements_supported : Forall (fun c => c ∈ alphabet) replacement_chars.

Lemma normalize_char_output c x :
  x ∈ fst (normalize_char alphabet c) → x ∈ alphabet ∨ x = chr_newline.
Proof using replacements_supported.
  rewrite Forall_forall in replacements_supported.
  unfold normalize_char.
  destruct (bool_decide (c ∈ alphabet)) eqn:Hc; simpl.
  { apply bool_decide_eq_true_1 in Hc. intros ->%list_elem_of_singleton. by left. }
  destruct (N.eqb c chr_newline) eqn:Hn; simpl.
  { apply N.eqb_eq in Hn. intros ->%list_elem_of_singleton. by right. }
  destruct (N.eqb c chr_tab); simpl.
  { intros ->%list_elem_of_singleton. left.
    apply replacements_supported. unfold replacement_chars. set_solver. }
  destruct (SubstitutionTable c) as [r|] eqn:Hr; simpl.
  - intros Hx. left. apply replacements_supported.
    by eapply SubstitutionTable_replacement.
  - by intros ?%elem_of_nil.
Qed.

(** Every character of the filtered text is supported or a newline. *)
Lemma validate_text_output text :
  Forall (fun c => c ∈ alphabet ∨ c = chr_newline) (validate_text alphabet text).
Proof using replacements_supported.
  rewrite validate_text_normalize. unfold normalize. simpl.
  induction text as [|c text IH]; simpl; [done|].
  apply Forall_app. split; [|done].
  apply Forall_forall. intros x. apply normalize_char_output.
Qed.

End Replacements.

End AlphabetFilterFacts.


(** C3 (as stated, refuted).  The ellipsis character has a replacement and
    is emitted as three periods, and still it is recorded in the set that
    the warning reports; the specification's [normalize] records
    nothing for it. *)
Lemma C3_substituted_character_is_recorded :
  SubstitutionTable chr_ellipsis = Some [chr_period; chr_period; chr_period]
  ∧ (chr_ellipsis ∉ sample_alphabet)
  ∧ validate_text sample_alphabet [chr_ellipsis] = [chr_period; chr_period; chr_period]
  ∧ chr_ellipsis ∈ validate_text_invalid sample_alphabet [chr_ellipsis]
  ∧ chr_ellipsis ∉ snd (normalize sample_alphabet [chr_ellipsis]).
Proof.
  split; [reflexivity|].
  assert (Hout : chr_ellipsis ∉ sample_alphabet)
    by (apply (bool_decide_unpack _); vm_compute; exact I).
  split; [exact Hout|].
  split; [vm_compute; reflexivity|].
  split.
  - apply validate_text_invalid_spec. repeat split; try done. set_solver.
  - apply (bool_decide_unpack _). vm_compute. exact I.
Qed.

(** C3 (amended).  The set that [validate_text] records and reports holds
    exactly the characters of the input that are outside the alphabet and
    are neither a newline nor a tab, whether they are replaced or dropped;
    the returned text is the one [normalize] describes (a replaced
    character is emitted as its replacement), and every character that
    [normalize] drops is in the recorded set. *)
Theorem C3_recorded_characters (alphabet : list char) (text : str) :
  (∀ c, c ∈ validate_text_invalid alphabet text ↔
        c ∈ text ∧ (c ∉ alphabet) ∧ c ≠ chr_newline ∧ c ≠ chr_tab)
  ∧ validate_text alphabet text = fst (normalize alphabet text)
  ∧ snd (normalize alphabet text) ⊆ validate_text_invalid alphabet text.
Proof.
  split; [intros c; apply validate_text_invalid_spec|].
  split; [apply validate_text_normalize|].
  intros c. rewrite validate_text_invalid_spec. unfold normalize. simpl.
  rewrite elem_of_union_list. intros (X & HX & Hc).
  apply list_elem_of_fmap in HX as (d & -> & Hd).
  unfold normalize_char in Hc.
  destruct (bool_decide (d ∈ alphabet)) eqn:E1; [set_solver|].
  destruct (N.eqb d chr_newline) eqn:E2; [set_solver|].
  destruct (N.eqb d chr_tab) eqn:E3; [set_solver|].
  destruct (SubstitutionTable d); [set_solver|].
  simpl in Hc. apply elem_of_singleton in Hc as ->.
  apply bool_decide_eq_false in E1. apply N.eqb_neq in E2, E3. done.
Qed.

(** C6.  On a text made only of characters of the alphabet and of
    newlines, [validate_text] returns the text unchanged (and records no
    invalid character). *)
Theorem C6_normalize_identity_on_supported (alphabet : list char) (text : str) :
  Forall (fun c => c ∈ alphabet ∨ c = chr_newline) text →
  validate_text alphabet text = text
  ∧ validate_text_warning alphabet text = None.
Proof.
  intros H. split; [by apply validate_text_id|].
  unfold validate_text_warning. by rewrite validate_text_invalid_id.
Qed.

Lemma C6_witness :
  Forall (fun c => c ∈ sample_alphabet ∨ c = chr_newline)
    (s2l "line one" ++ [chr_newline; chr_newline] ++ s2l "line two")
  ∧ validate_text sample_alphabet
      (s2l "line one" ++ [chr_newline; chr_newline] ++ s2l "line two")
    = s2l "line one" ++ [chr_newline; chr_newline] ++ s2l "line two".
Proof.
  assert (H : Forall (fun c => c ∈ sample_alphabet ∨ c = chr_newline)
                (s2l "line one" ++ [chr_newline; chr_newline] ++ s2l "line two"))
    by (apply (bool_decide_unpack _); vm_compute; exact I).
  split; [exact H|].
  exact (proj1 (C6_normalize_identity_on_supported sample_alphabet _ H)).
Defined.

(** C7.  [validate_text] is a total function (it raises for no input, the
    empty string included), and, the replacement characters being in the
    alphabet, every character of its result is in the alphabet or is a
    newline. *)
Theorem C7_normalize_output_supported (alphabet : list char) (text : str) :
  Forall (fun c => c ∈ alphabet) replacement_chars →
  validate_text alphabet [] = []
  ∧ Forall (fun c => c ∈ alphabet ∨ c = chr_newline) (validate_text alphabet text).
Proof.
  intros H. split; [reflexivity|]. by apply validate_text_output.
Qed.

Lemma C7_witness :
  Forall (fun c => c ∈ sample_alphabet) replacement_chars
  ∧ Forall (fun c => c ∈ sample_alphabet ∨ c = chr_newline)
      (validate_text sample_alphabet
         (chr_lsquo :: s2l "Hello" ++ [chr_rsquo; chr_tab; chr_emdash; 8364%N; chr_ellipsis])).
Proof.
  assert (H : Forall (fun c => c ∈ sample_alphabet) replacement_chars)
    by (apply (bool_decide_unpack _); vm_compute; exact I).
  split; [exact H|].
  exact (proj2 (C7_normalize_output_supported sample_alphabet _ H)).
Defined.

(** C5.  The replacement characters being in the alphabet, filtering a
    text twice gives the same text as filtering it once. *)
Theorem C5_normalize_idempotent (alphabet : list char) (x : str) :
  Forall (fun c => c ∈ alphabet) replacement_chars →
  validate_text alphabet (validate_text alphabet x) = validate_text alphabet x.
Proof.
  intros H. apply validate_text_id. by apply validate_text_output.
Qed.

Lemma C5_witness :
  Forall (fun c => c ∈ sample_alphabet) replacement_chars
  ∧ validate_text sample_alphabet
      (validate_text sample_alphabet
         (chr_lsquo :: s2l "Hello" ++ [chr_rsquo; chr_tab; chr_emdash; 8364%N; chr_ellipsis]))
    = validate_text sample_alphabet
        (chr_lsquo :: s2l "Hello" ++ [chr_rsquo; chr_tab; chr_emdash; 8364%N; chr_ellipsis]).
Proof.
  assert (H : Forall (fun c => c ∈ sample_alphabet) replacement_chars)
    by (apply (bool_decide_unpack _); vm_compute; exact I).
  split; [exact H|].
  exact (C5_normalize_idempotent sample_alphabet _ H).
Defined.

(** ** Strings *)

Lemma lstrip_empty s : lstrip s = [] ↔ Forall (fun c => py_isspace c = true) s.
Proof.
  induction s as [|c s IH]; simpl; [by split|].
  destruct (py_isspace c) eqn:E.
  - rewrite IH. split; [by constructor|by inversion 1].
  - split; [done|]. inversion 1; congruence.
Qed.

Lemma lstrip_suffix s : ∃ p, s = p ++ lstrip s.
Proof.
  induction s as [|c s [p IH]]; simpl; [by exists []|].
  destruct (py_isspace c); [|by exists []].
  exists (c :: p). simpl. congruence.
Qed.

(** [not s.strip()] holds exactly for the strings made of whitespace. *)
Lemma strip_empty s :
  is_empty (strip s) = true ↔ Forall (fun c => py_isspace c = true) s.
Proof.
  unfold strip, rstrip.
  assert (H : ∀ l : str, is_empty l = true ↔ l = []) by (intros []; by split).
  rewrite H. split.
  - intros E. apply (f_equal (@rev _)) in E. rewrite rev_involutive in E. simpl in E.
    apply lstrip_empty in E. apply Forall_rev in E. rewrite rev_involutive in E.
    destruct (lstrip_suffix s) as [p Hp].
    destruct (decide (lstrip s = [])) as [E0|E0]; [by apply lstrip_empty|].
    destruct (lstrip s) as [|c r] eqn:E1; [done|].
    assert (Hc : py_isspace c = true) by (by inversion E).
    clear -E1 Hc. exfalso. revert c r E1 Hc.
    induction s as [|d s IH]; simpl; [done|]. intros c r.
    destruct (py_isspace d) eqn:Ed; [apply IH|]. intros [= -> ->]. congruence.
  - intros E. apply lstrip_empty in E. rewrite E. done.
Qed.

Lemma split_nonempty s sep : split s sep ≠ [].
Proof.
  destruct s as [|c s]; simpl; [done|].
  destruct (N.eqb c sep); [done|]. by destruct (split s sep).
Qed.

Lemma last_index_range c s i :
  last_index c s i = (-1)%Z ∨ (i <= last_index c s i < i + len s)%Z.
Proof.
  revert i. induction s as [|x s IH]; intros i; simpl; [by left|].
  unfold len in *. simpl length. rewrite Nat2Z.inj_succ.
  destruct (IH (i + 1)%Z) as [H|H].
  - rewrite H. simpl. destruct (N.eqb x c); [right; lia|by left].
  - destruct (0 <=? last_index c s (i + 1))%Z eqn:E.
    + right. lia.
    + destruct (N.eqb x c); [right; lia|by left].
Qed.

Lemma slice_to_from {A} (s : list A) (e : Z) : slice_to s e ++ slice_from s e = s.
Proof. apply take_drop. Qed.

Lemma len_slice_to {A} (s : list A) (e : Z) :
  (0 <= e <= len s)%Z → len (slice_to s e) = e.
Proof.
  intros H. unfold slice_to, slice_index, len in *.
  rewrite length_take.
  destruct (e <? 0)%Z eqn:E; [lia|]. lia.
Qed.

(** ** The chunk splitter of [textwrap] *)

Section RegexFacts.

Variable isalnum : char -> bool.
Variable isdecimal : char -> bool.

Lemma hyphens_then_word_progress s i j e :
  textwrap.hyphens_then_word isalnum s i j = Some e → i < e.
Proof.
  induction j as [|j IH]; simpl; [done|].
  destruct j as [|j']; [done|].
  destruct (textwrap.at_pos _ s (i + S (S j'))).
  - intros [= <-]. lia.
  - apply IH.
Qed.

Lemma word_end_progress s p rest e :
  textwrap.word_end isalnum isdecimal s p rest = Some e → p ≤ e.
Proof.
  revert p. induction rest as [|c rest IH]; intros p; simpl.
  - destruct (textwrap.hyphenated_at _ _ s p); intros [= <-]; lia.
  - destruct (textwrap.hyphenated_at _ _ s p); [intros [= <-]; lia|].
    destruct (textwrap.is_ws c); [intros [= <-]; lia|].
    destruct (textwrap.before_emdash_at _ s p); [intros [= <-]; lia|].
    intros H%IH. lia.
Qed.

(** A match of [wordsep_re] is never empty. *)
Lemma wordsep_match_progress s i e :
  textwrap.wordsep_match isalnum isdecimal s i = Some e → i < e.
Proof.
  unfold textwrap.wordsep_match.
  destruct (drop i s) as [|c rest]; [done|].
  destruct (textwrap.is_ws c) eqn:Ec.
  - intros [= <-]. simpl. rewrite Ec. lia.
  - destruct (textwrap.match_emdash isalnum s i) as [e'|] eqn:Em.
    + intros [= <-]. unfold textwrap.match_emdash in Em.
      destruct (_ && _); [|done]. by apply hyphens_then_word_progress in Em.
    + intros H%word_end_progress. lia.
Qed.

Lemma wordsep_match_end s i :
  length s ≤ i → textwrap.wordsep_match isalnum isdecimal s i = None.
Proof.
  intros H. unfold textwrap.wordsep_match. by rewrite drop_ge.
Qed.

Lemma re_split_from_end s n last pos :
  length s ≤ pos →
  textwrap.re_split_from isalnum isdecimal s n last pos = [substr s last (length s)].
Proof.
  revert pos. induction n as [|n IH]; intros pos H; simpl; [done|].
  rewrite wordsep_match_end by done. apply IH. lia.
Qed.

(** [length s] search steps are enough: more steps change nothing. *)
Lemma re_split_from_steps s n n' last pos :
  length s - pos ≤ n → length s - pos ≤ n' →
  textwrap.re_split_from isalnum isdecimal s n last pos
  = textwrap.re_split_from isalnum isdecimal s n' last pos.
Proof.
  revert n' last pos. induction n as [|n IH]; intros n' last pos Hn Hn'.
  - rewrite !re_split_from_end by lia. done.
  - destruct (decide (length s ≤ pos)) as [H|H].
    { rewrite !re_split_from_end by lia. done. }
    destruct n' as [|n']; [lia|]. simpl.
    destruct (textwrap.wordsep_match isalnum isdecimal s pos) as [e|] eqn:E.
    + apply wordsep_match_progress in E. do 2 f_equal. apply IH; lia.
    + apply IH; lia.
Qed.

End RegexFacts.

(** ** The wrapping loop of [textwrap] *)

Lemma sum_len_app l1 l2 :
  textwrap.sum_len (l1 ++ l2) = (textwrap.sum_len l1 + textwrap.sum_len l2)%Z.
Proof. induction l1 as [|c l1 IH]; simpl; lia. Qed.

Lemma sum_len_nonneg l : (0 <= textwrap.sum_len l)%Z.
Proof. induction l as [|c l IH]; simpl; unfold len; lia. Qed.

Lemma len_app {A} (l1 l2 : list A) : len (l1 ++ l2) = (len l1 + len l2)%Z.
Proof. unfold len. rewrite length_app. lia. Qed.

Lemma len_nonneg {A} (l : list A) : (0 <= len l)%Z.
Proof. unfold len. lia. Qed.

Lemma len_join_empty l : len (join_empty l) = textwrap.sum_len l.
Proof.
  unfold join_empty. induction l as [|c l IH]; simpl; [done|].
  rewrite len_app. lia.
Qed.

Lemma fill_line_inv width chunks cur_line cur_len chunks' cur_line' cur_len' :
  textwrap.fill_line width chunks cur_line cur_len = (chunks', cur_line', cur_len') →
  ∃ taken,
    chunks = taken ++ chunks'
    ∧ cur_line' = cur_line ++ taken
    ∧ cur_len' = (cur_len + textwrap.sum_len taken)%Z
    ∧ ((cur_len <= width)%Z → (cur_len' <= width)%Z)
    ∧ (∀ c rest, chunks' = c :: rest → (width < cur_len' + len c)%Z).
Proof.
  revert cur_line cur_len.
  induction chunks as [|c below IH]; intros cur_line cur_len; simpl.
  - intros [= <- <- <-]. exists []. simpl.
    repeat split; rewrite ?app_nil_r; try done; lia.
  - destruct (cur_len + len c <=? width)%Z eqn:E.
    + intros H. apply IH in H as (taken & -> & -> & -> & Hw & Hnext).
      apply Z.leb_le in E.
      exists (c :: taken). rewrite <- app_assoc. simpl.
      repeat split; try done; try lia.
    + intros [= <- <- <-]. apply Z.leb_gt in E.
      exists []. simpl.
      repeat split; rewrite ?app_nil_r; try done; try lia.
      intros ? ? [= <- <-]. lia.
Qed.

Lemma handle_long_word_inv chunk below cur_line cur_len width :
  (1 <= width)%Z → (0 <= cur_len <= width)%Z → (width < len chunk)%Z →
  ∃ piece rest,
    textwrap._handle_long_word (chunk :: below) cur_line cur_len width
    = (rest :: below, cur_line ++ [piece])
    ∧ chunk = piece ++ rest
    ∧ (len piece <= width - cur_len)%Z
    ∧ (cur_len = 0%Z → 1 <= len piece)%Z
    ∧ (1 <= len rest)%Z.
Proof.
  intros Hw Hc Hl. unfold textwrap._handle_long_word.
  replace (width <? 1)%Z with false by lia.
  replace (width - cur_len <? len chunk)%Z with true by lia.
  set (space_left := (width - cur_len)%Z).
  set (hyphen := rfind chunk chr_hyphen space_left).
  assert (Hh : hyphen = (-1)%Z ∨ (0 <= hyphen < space_left)%Z).
  { subst hyphen. unfold rfind.
    destruct (last_index_range chr_hyphen (slice_to chunk space_left) 0) as [H|H];
      [by left|right].
    rewrite len_slice_to in H by (subst space_left; lia). lia. }
  set (end_ := if ((0 <? hyphen)%Z && _)%bool then (hyphen + 1)%Z else space_left).
  assert (He : (0 <= end_ <= space_left)%Z ∧ (cur_len = 0%Z → 1 <= end_)%Z).
  { subst end_. destruct (_ && _)%bool eqn:E.
    - apply andb_true_iff in E as [E _]. apply Z.ltb_lt in E. lia.
    - subst space_left. lia. }
  exists (slice_to chunk end_), (slice_from chunk end_).
  split; [done|]. split; [by rewrite slice_to_from|].
  assert (Hp : len (slice_to chunk end_) = end_)
    by (apply len_slice_to; subst space_left; lia).
  rewrite Hp. repeat split; try lia.
  pose proof (f_equal len (slice_to_from chunk end_)) as Hs.
  rewrite len_app, Hp in Hs. subst space_left. lia.
Qed.

Lemma sum_len_removelast l c :
  last l = Some c →
  textwrap.sum_len (removelast l) = (textwrap.sum_len l - len c)%Z.
Proof.
  intros H. apply last_Some in H as [l' ->].
  rewrite removelast_last, sum_len_app. simpl. lia.
Qed.

Lemma sum_len_pos l :
  Forall (fun c => (1 <= len c)%Z) l → l ≠ [] → (1 <= textwrap.sum_len l)%Z.
Proof.
  intros H Hl. destruct H as [|c l Hc Hl']; [done|]. simpl.
  pose proof (sum_len_nonneg l). lia.
Qed.

(** One pass of the outer loop keeps the chunks non-empty, removes at
    least one character from the stack, and adds at most one line, which
    is not longer than [width]. *)
Lemma wrap_pass_inv width top below lines chunks' lines' :
  (1 <= width)%Z →
  Forall (fun c => (1 <= len c)%Z) (top :: below) →
  textwrap.wrap_pass width top below lines = (chunks', lines') →
  Forall (fun c => (1 <= len c)%Z) chunks'
  ∧ (textwrap.sum_len chunks' < textwrap.sum_len (top :: below))%Z
  ∧ ∃ new, lines' = lines ++ new ∧ Forall (fun l => (len l <= width)%Z) new.
Proof.
  intros Hw Hne. unfold textwrap.wrap_pass.
  set (chunks1 := if (_ && _)%bool then below else top :: below).
  assert (H1 : Forall (fun c => (1 <= len c)%Z) chunks1
               ∧ (chunks1 = top :: below
                  ∨ (textwrap.sum_len chunks1 < textwrap.sum_len (top :: below))%Z)).
  { subst chunks1. destruct (_ && _)%bool.
    - split; [by inversion Hne|]. right. simpl. inversion Hne; subst. lia.
    - split; [done|by left]. }
  destruct H1 as [Hne1 Hsum1]. clearbody chunks1.
  destruct (textwrap.fill_line width chunks1 [] 0) as [[chunks2 cur_line] cur_len] eqn:Hfill.
  apply fill_line_inv in Hfill as (taken & -> & Hcl & Hlen & Hfit & Hnext).
  simpl in Hcl. subst cur_line. rewrite Z.add_0_l in Hlen.
  assert (Hfit' : (cur_len <= width)%Z) by (apply Hfit; lia).
  clear Hfit.
  apply Forall_app in Hne1 as [Hne_taken Hne2].
  pose proof (sum_len_nonneg taken) as Htaken0.
  (* the long-word step *)
  set (step := match chunks2 with
               | [] => (chunks2, taken, cur_len)
               | c :: _ => _
               end).
  assert (H3 : ∃ chunks3 cur_line3 cur_len3,
    step = (chunks3, cur_line3, cur_len3)
    ∧ Forall (fun c => (1 <= len c)%Z) chunks3
    ∧ (textwrap.sum_len cur_line3 <= width)%Z
    ∧ (textwrap.sum_len chunks3 <= textwrap.sum_len chunks2)%Z
    ∧ (taken = [] → chunks2 ≠ [] →
       (textwrap.sum_len chunks3 < textwrap.sum_len chunks2)%Z)).
  { subst step. destruct chunks2 as [|c rest].
    - eexists _, _, _. split; [done|]. split_and!; try done; lia.
    - destruct (width <? len c)%Z eqn:E.
      + apply Z.ltb_lt in E.
        destruct (handle_long_word_inv c rest taken cur_len width)
          as (piece & r & -> & -> & Hp & Hp1 & Hr); [lia..|].
        eexists _, _, _. split; [done|].
        inversion Hne2; subst.
        rewrite !sum_len_app. simpl. rewrite len_app.
        pose proof (len_nonneg piece).
        split_and!; try lia.
        * by constructor.
        * intros -> _. simpl in *. lia.
      + apply Z.ltb_ge in E.
        eexists _, _, _. split; [done|]. split_and!; try done; try lia.
        intros -> _. simpl in Hlen. specialize (Hnext c rest eq_refl). lia. }
  destruct H3 as (chunks3 & cur_line3 & cur_len3 & -> & Hne3 & Hw3 & Hle3 & Hlt3).
  (* dropping a trailing blank chunk *)
  set (drop_ := match last cur_line3 with Some c => _ | None => _ end).
  assert (H4 : ∃ cur_line4 cur_len4,
    drop_ = (cur_line4, cur_len4) ∧ (textwrap.sum_len cur_line4 <= width)%Z).
  { subst drop_. destruct (last cur_line3) as [c|] eqn:El.
    - destruct (textwrap.is_blank c).
      + eexists _, _. split; [done|]. rewrite (sum_len_removelast _ c El).
        unfold len. lia.
      + eexists _, _. by split.
    - eexists _, _. by split. }
  destruct H4 as (cur_line4 & cur_len4 & -> & Hw4).
  intros [= <- <-].
  split; [done|]. split.
  - destruct Hsum1 as [Hsum1|Hsum1].
    + rewrite <- Hsum1. rewrite sum_len_app.
      destruct taken as [|t taken'].
      * simpl in *. subst chunks2. rewrite Z.add_0_l. apply Hlt3; done.
      * assert (1 <= textwrap.sum_len (t :: taken'))%Z
          by (by apply sum_len_pos). lia.
    + rewrite sum_len_app in Hsum1. lia.
  - destruct (is_empty cur_line4).
    + exists []. by rewrite app_nil_r.
    + eexists. split; [done|]. constructor; [|done].
      by rewrite len_join_empty.
Qed.

(** The bound on the number of passes is never reached: the loop ends
    with the stack empty, having added lines no longer than [width]. *)
Lemma wrap_loop_total n width chunks lines :
  (1 <= width)%Z →
  Forall (fun c => (1 <= len c)%Z) chunks →
  (textwrap.sum_len chunks < Z.of_nat n)%Z →
  ∃ new, textwrap.wrap_loop n width chunks lines = Some (lines ++ new)
         ∧ Forall (fun l => (len l <= width)%Z) new.
Proof.
  intros Hw. revert chunks lines.
  induction n as [|n IH]; intros chunks lines Hne Hn.
  - pose proof (sum_len_nonneg chunks). lia.
  - destruct chunks as [|top below]; simpl.
    + exists []. by rewrite app_nil_r.
    + destruct (textwrap.wrap_pass width top below lines) as [chunks' lines'] eqn:E.
      apply wrap_pass_inv in E as (Hne' & Hlt & new1 & -> & Hnew1); [|done..].
      destruct (IH chunks' (lines ++ new1)) as (new2 & -> & Hnew2); [done|lia|].
      exists (new1 ++ new2). rewrite app_assoc. split; [done|].
      by apply Forall_app.
Qed.

Section TextwrapFacts.

Variable isalnum : char -> bool.
Variable isdecimal : char -> bool.

Lemma split_chunks_nonempty text :
  Forall (fun c => (1 <= len c)%Z) (textwrap._split_chunks isalnum isdecimal text).
Proof.
  unfold textwrap._split_chunks, textwrap._split.
  apply Forall_forall. intros c [Hc _]%list_elem_of_filter.
  destruct c; [done|]. unfold len. simpl. lia.
Qed.

Lemma wrap_nonpositive text width :
  (width <= 0)%Z → textwrap.wrap isalnum isdecimal text width = Raise ValueError.
Proof.
  intros H. unfold textwrap.wrap, textwrap._wrap_chunks.
  by replace (width <=? 0)%Z with true by lia.
Qed.

(** For a positive width [textwrap.wrap] returns, and no line it returns
    is longer than the width. *)
Lemma wrap_positive text width :
  (1 <= width)%Z →
  ∃ lines, textwrap.wrap isalnum isdecimal text width = Return lines
           ∧ Forall (fun l => (len l <= width)%Z) lines.
Proof.
  intros H. unfold textwrap.wrap, textwrap._wrap_chunks.
  replace (width <=? 0)%Z with false by lia.
  set (chunks := textwrap._split_chunks isalnum isdecimal text).
  destruct (wrap_loop_total (S (Z.to_nat (textwrap.sum_len chunks))) width chunks [])
    as (new & -> & Hnew); [done|apply split_chunks_nonempty| |by exists new].
  pose proof (sum_len_nonneg chunks). lia.
Qed.

(** *** [wrap_text] *)

Lemma wrap_paragraph_blank max_chars para :
  is_empty (strip para) = true →
  wrap_paragraph isalnum isdecimal max_chars para = Return [[]].
Proof. intros H. unfold wrap_paragraph. by rewrite H. Qed.

Lemma wrap_paragraph_nonpositive max_chars para :
  (max_chars <= 0)%Z → is_empty (strip para) = false →
  wrap_paragraph isalnum isdecimal max_chars para = Raise ValueError.
Proof.
  intros Hm H. unfold wrap_paragraph. rewrite H.
  by rewrite wrap_nonpositive.
Qed.

Lemma wrap_paragraph_positive max_chars para :
  (1 <= max_chars)%Z →
  ∃ new, wrap_paragraph isalnum isdecimal max_chars para = Return new
         ∧ new ≠ [] ∧ Forall (fun l => (len l <= max_chars)%Z) new.
Proof.
  intros Hm. unfold wrap_paragraph.
  destruct (is_empty (strip para)).
  - exists [[]]. split_and!; [done..|]. constructor; [|done]. unfold len; simpl; lia.
  - destruct (wrap_positive para max_chars Hm) as (wrapped & -> & Hw). simpl.
    destruct wrapped as [|l wrapped]; simpl.
    + exists [[]]. split_and!; [done..|]. constructor; [|done]. unfold len; simpl; lia.
    + by exists (l :: wrapped).
Qed.

(** Whatever [max_chars] is, a paragraph that is wrapped without an
    exception adds at least one line, and only lines of at most
    [max_chars] characters (empty lines when [max_chars] is not positive). *)
Lemma wrap_paragraph_return max_chars para new :
  wrap_paragraph isalnum isdecimal max_chars para = Return new →
  new ≠ [] ∧ Forall (fun l => (len l <= Z.max 0 max_chars)%Z) new.
Proof.
  destruct (decide (1 <= max_chars)%Z) as [Hm|Hm].
  - destruct (wrap_paragraph_positive max_chars para Hm) as (new' & -> & Hne & Hl).
    intros [= <-]. split; [done|].
    eapply Forall_impl; [exact Hl|]. simpl. lia.
  - destruct (is_empty (strip para)) eqn:E.
    + rewrite wrap_paragraph_blank by done. intros [= <-]. split; [done|].
      constructor; [|done]. unfold len; simpl; lia.
    + rewrite wrap_paragraph_nonpositive by (done || lia). done.
Qed.

(** The loop over the paragraphs appends, in order, the lines of each
    paragraph. *)
Lemma wrap_paragraphs_return max_chars paragraphs lines out :
  wrap_paragraphs isalnum isdecimal max_chars paragraphs lines = Return out ↔
  ∃ groups,
    Forall2 (fun para group =>
               wrap_paragraph isalnum isdecimal max_chars para = Return group)
            paragraphs groups
    ∧ out = lines ++ concat groups.
Proof.
  revert lines. induction paragraphs as [|para paragraphs IH]; intros lines; simpl.
  - split.
    + intros [= <-]. exists []. split; [constructor|]. by rewrite app_nil_r.
    + intros (groups & H & ->). inversion H; subst. simpl. by rewrite app_nil_r.
  - destruct (wrap_paragraph isalnum isdecimal max_chars para) as [new| |] eqn:E; simpl.
    + rewrite IH. split.
      * intros (groups & H & ->). exists (new :: groups). simpl.
        rewrite app_assoc. split; [by constructor|done].
      * intros (groups & H & ->). inversion H as [|? g ? gs Hg Hgs]; subst.
        rewrite E in Hg. injection Hg as <-.
        exists gs. simpl. by rewrite app_assoc.
    + split; [done|]. intros (groups & H & _). inversion H; subst. congruence.
    + split; [done|]. intros (groups & H & _). inversion H; subst. congruence.
Qed.

Lemma wrap_text_return text max_chars out :
  wrap_text isalnum isdecimal text max_chars = Return out ↔
  ∃ groups,
    Forall2 (fun para group =>
               wrap_paragraph isalnum isdecimal (Z.min max_chars 75) para = Return group)
            (split text chr_newline) groups
    ∧ out = concat groups.
Proof. unfold wrap_text. by rewrite wrap_paragraphs_return. Qed.

(** With a positive limit [wrap_text] returns. *)
Lemma wrap_text_positive text max_chars :
  (1 <= max_chars)%Z →
  ∃ out, wrap_text isalnum isdecimal text max_chars = Return out.
Proof.
  intros Hm.
  assert (H : ∃ groups,
    Forall2 (fun para group =>
               wrap_paragraph isalnum isdecimal (Z.min max_chars 75) para = Return group)
            (split text chr_newline) groups).
  { induction (split text chr_newline) as [|para paras [groups IH]].
    - exists []. constructor.
    - destruct (wrap_paragraph_positive (Z.min max_chars 75) para)
        as (g & Hg & _); [lia|].
      exists (g :: groups). by constructor. }
  destruct H as [groups H]. exists (concat groups).
  apply wrap_text_return. by exists groups.
Qed.

(** The lines [wrap_text] returns are never none, and none is longer than
    75 characters. *)
Lemma wrap_text_lines text max_chars out :
  wrap_text isalnum isdecimal text max_chars = Return out →
  out ≠ [] ∧ Forall (fun l => (len l <= 75)%Z) out.
Proof.
  intros (groups & H & ->)%wrap_text_return.
  pose proof (split_nonempty text chr_newline) as Hs.
  assert (Hg : Forall (fun g : list str => g ≠ [] ∧ Forall (fun l => (len l <= 75)%Z) g) groups).
  { clear Hs. induction H as [|para g paras groups Hg _ IH]; constructor; [|done].
    apply wrap_paragraph_return in Hg as [Hne Hl]. split; [done|].
    eapply Forall_impl; [exact Hl|]. simpl. lia. }
  split.
  - destruct H as [|para g paras groups' _ _]; [done|].
    inversion Hg as [|? ? [Hne _] _]; subst. simpl.
    destruct g; [done|]. done.
  - clear H Hs. induction Hg as [|g groups [_ Hl] _ IH]; simpl; [done|].
    by apply Forall_app.
Qed.

End TextwrapFacts.

Lemma wrap_paragraphs_raise (isalnum isdecimal : char -> bool) max_chars paragraphs lines :
  (max_chars <= 0)%Z →
  Exists (fun para => is_empty (strip para) = false) paragraphs →
  wrap_paragraphs isalnum isdecimal max_chars paragraphs lines = Raise ValueError.
Proof.
  intros Hm H. revert lines.
  induction H as [para paras Hp|para paras _ IH]; intros lines; simpl.
  - by rewrite wrap_paragraph_nonpositive.
  - destruct (is_empty (strip para)) eqn:E.
    + rewrite wrap_paragraph_blank by done. simpl. apply IH.
    + by rewrite wrap_paragraph_nonpositive.
Qed.

(** C2 (the code does otherwise).  With [max_chars] below 1, [wrap_text]
    raises [ValueError] as soon as the text has a paragraph that is not
    blank: the limit is handed to [textwrap.wrap] as it is, not raised
    to 1. *)
Theorem C2_wrap_text_raises_below_one (isalnum isdecimal : char -> bool)
    (text : str) (max_chars : Z) :
  (max_chars < 1)%Z →
  Exists (fun para => is_empty (strip para) = false) (split text chr_newline) →
  wrap_text isalnum isdecimal text max_chars = Raise ValueError.
Proof.
  intros Hm H. unfold wrap_text. apply wrap_paragraphs_raise; [lia|done].
Qed.

(** C4.  [wrap_text] returns for every positive [max_chars], and no line
    it returns, whatever [max_chars] is, has more than 75 characters. *)
Theorem C4_wrapped_lines_at_most_75 (isalnum isdecimal : char -> bool)
    (text : str) (max_chars : Z) :
  ((1 <= max_chars)%Z →
   ∃ out, wrap_text isalnum isdecimal text max_chars = Return out)
  ∧ ∀ out, wrap_text isalnum isdecimal text max_chars = Return out →
           Forall (fun l => length l ≤ 75) out.
Proof.
  split; [apply wrap_text_positive|].
  intros out [_ H]%wrap_text_lines.
  eapply Forall_impl; [exact H|]. unfold len. simpl. lia.
Qed.

Lemma C2_witness :
  wrap_text ascii_isalnum ascii_isdecimal (s2l "hi") 0 = Raise ValueError
  ∧ wrap_text ascii_isalnum ascii_isdecimal (s2l "hi") 1 = Return [s2l "h"; s2l "i"].
Proof.
  split; [|vm_compute; reflexivity].
  apply (C2_wrap_text_raises_below_one ascii_isalnum ascii_isdecimal (s2l "hi") 0).
  - reflexivity.
  - apply Exists_cons_hd. vm_compute. reflexivity.
Defined.

Lemma C4_witness :
  Forall (fun l : str => length l ≤ 75) [repeat 97%N 75; repeat 97%N 25].
Proof.
  apply (proj2 (C4_wrapped_lines_at_most_75 ascii_isalnum ascii_isdecimal
                  (repeat 97%N 100) 200)).
  vm_compute. reflexivity.
Defined.

(** ** [main] *)

Section MainFacts.

Variable alphabet : list char.
Variable isalnum : char -> bool.
Variable isdecimal : char -> bool.

Lemma main_lines_nonempty args text out :
  main_lines alphabet isalnum isdecimal args text = Return out → out ≠ [].
Proof.
  unfold main_lines. destruct (negb _).
  - by intros [? _]%wrap_text_lines.
  - unfold wrap_text_to_width.
    destruct (width_max_chars _ _ _) as [m| |]; simpl; [|done..].
    by intros [? _]%wrap_text_lines.
Qed.

(** The exit [Error: No valid text to render] is never taken. *)
Lemma main_never_no_valid_text args text :
  main alphabet isalnum isdecimal args text ≠ Exit1 No_valid_text_to_render.
Proof.
  unfold main. destruct (is_empty (strip text)); [done|].
  destruct (main_lines _ _ _ _ _) as [out| |] eqn:E; [|done..].
  apply main_lines_nonempty in E. by destruct out.
Qed.

Lemma split_isspace s sep :
  Forall (fun c => py_isspace c = true) s →
  Forall (fun para => is_empty (strip para) = true) (split s sep).
Proof.
  intros H. eapply Forall_impl; [|intros para Hp; apply strip_empty; exact Hp].
  induction H as [|c s Hc _ IH]; simpl; [by repeat constructor|].
  destruct (N.eqb c sep); [by constructor|].
  destruct (split s sep) as [|p ps]; [by repeat constructor|].
  inversion IH; subst. constructor; [by constructor|done].
Qed.

Lemma wrap_paragraphs_blank max_chars paragraphs lines :
  Forall (fun para => is_empty (strip para) = true) paragraphs →
  wrap_paragraphs isalnum isdecimal max_chars paragraphs lines
  = Return (lines ++ map (fun _ => []) paragraphs).
Proof.
  intros H. revert lines.
  induction H as [|para paras Hp _ IH]; intros lines; simpl.
  - by rewrite app_nil_r.
  - rewrite wrap_paragraph_blank by done. simpl.
    rewrite IH, <- app_assoc. done.
Qed.

(** A text of whitespace only is wrapped, for every limit, into one empty
    line per paragraph. *)
Lemma wrap_text_blank text max_chars :
  Forall (fun c => py_isspace c = true) text →
  wrap_text isalnum isdecimal text max_chars
  = Return (map (fun _ => []) (split text chr_newline)).
Proof.
  intros H. unfold wrap_text.
  by rewrite wrap_paragraphs_blank by (by apply split_isspace).
Qed.

End MainFacts.

(** C10.  For every text, the empty one included, and every [max_chars]
    of at least 1, [wrap_text] returns a list with a first line; it
    returns the empty list for no [max_chars] at all, so [main] never
    takes the exit [Error: No valid text to render]. *)
Theorem C10_wrap_text_never_empty (alphabet : list char)
    (isalnum isdecimal : char -> bool) (text : str) (max_chars : Z)
    (args : Args) (raw : str) :
  ((1 <= max_chars)%Z →
   ∃ l ls, wrap_text isalnum isdecimal text max_chars = Return (l :: ls))
  ∧ wrap_text isalnum isdecimal text max_chars ≠ Return []
  ∧ main alphabet isalnum isdecimal args raw ≠ Exit1 No_valid_text_to_render.
Proof.
  split_and!.
  - intros Hm. destruct (wrap_text_positive isalnum isdecimal text max_chars Hm)
      as [out Hout].
    destruct (wrap_text_lines _ _ _ _ _ Hout) as [Hne _].
    destruct out as [|l ls]; [done|]. by exists l, ls.
  - intros H. by apply wrap_text_lines in H as [? _].
  - apply main_never_no_valid_text.
Qed.

Lemma C10_witness :
  ∃ l ls, wrap_text ascii_isalnum ascii_isdecimal [] 1 = Return (l :: ls).
Proof.
  apply (proj1 (C10_wrap_text_never_empty sample_alphabet ascii_isalnum
                  ascii_isdecimal [] 1 default_args [])).
  vm_compute. discriminate.
Defined.

(** C1 (the code does otherwise).  A text that is not blank, but of which
    the filter leaves whitespace only, passes the one check [main] makes
    before filtering; [main] then calls [hand.write] with a list of empty
    lines instead of ending with an error. *)
Theorem C1_blank_text_is_rendered (alphabet : list char)
    (isalnum isdecimal : char -> bool) (args : Args) (text : str) :
  is_empty (strip text) = false →
  Forall (fun c => py_isspace c = true) (validate_text alphabet text) →
  (arg_max_chars args ≠ 75%Z
   ∨ ∃ m, width_max_chars
            (arg_view_width args - arg_left_margin args - arg_right_margin args)
            default_scale_factor default_avg_char_width = Return m) →
  ∃ svg_height call,
    main alphabet isalnum isdecimal args text = Write_svg svg_height call
    ∧ lines call ≠ []
    ∧ Forall (fun l => l = []) (lines call).
Proof.
  intros Hraw Hblank Hargs. unfold main. rewrite Hraw.
  assert (Hlines : main_lines alphabet isalnum isdecimal args text
                   = Return (map (fun _ => [])
                               (split (validate_text alphabet text) chr_newline))).
  { unfold main_lines. destruct (Z.eqb_spec (arg_max_chars args) 75) as [E|E]; simpl.
    - destruct Hargs as [?|[m Hm]]; [done|].
      unfold wrap_text_to_width. rewrite Hm. simpl. by apply wrap_text_blank.
    - by apply wrap_text_blank. }
  rewrite Hlines.
  pose proof (split_nonempty (validate_text alphabet text) chr_newline) as Hs.
  destruct (split (validate_text alphabet text) chr_newline) as [|p ps]; [done|].
  simpl. eexists _, _. split; [reflexivity|]. simpl. split; [done|].
  constructor; [done|]. apply Forall_forall. by intros l (? & -> & _)%list_elem_of_fmap.
Qed.

Lemma C1_witness :
  ∃ svg_height call,
    main sample_alphabet ascii_isalnum ascii_isdecimal default_args [8364%N]
    = Write_svg svg_height call
    ∧ lines call ≠ []
    ∧ Forall (fun l => l = []) (lines call).
Proof.
  apply (C1_blank_text_is_rendered sample_alphabet ascii_isalnum ascii_isdecimal
           default_args [8364%N]).
  - vm_compute. reflexivity.
  - vm_compute. constructor.
  - right. exists 60%Z. vm_compute. reflexivity.
Defined.

(** At the input of the witness the call is made with one empty line for
    a page of height 120. *)
Example main_euro_sign :
  ∃ call,
    main sample_alphabet ascii_isalnum ascii_isdecimal default_args [8364%N]
    = Write_svg 120 call
    ∧ lines call = [[]].
Proof. eexists. split; vm_compute; reflexivity. Qed.

(** ** Binary64 arithmetic *)

Lemma digits2_pos_bounds p :
  (2 ^ (Zpos (digits2_pos p) - 1) <= Zpos p < 2 ^ Zpos (digits2_pos p))%Z.
Proof.
  induction p as [p IH|p IH|]; simpl digits2_pos.
  - rewrite Pos2Z.inj_succ, (Pos2Z.inj_xI p).
    replace (Z.succ (Zpos (digits2_pos p)) - 1)%Z
      with (Z.succ (Zpos (digits2_pos p) - 1)) by lia.
    rewrite !Z.pow_succ_r by lia.
    destruct IH as [IH1 IH2]. revert IH1 IH2.
    generalize (2 ^ (Zpos (digits2_pos p) - 1))%Z (2 ^ Zpos (digits2_pos p))%Z.
    generalize (Zpos p). lia.
  - rewrite Pos2Z.inj_succ, (Pos2Z.inj_xO p).
    replace (Z.succ (Zpos (digits2_pos p)) - 1)%Z
      with (Z.succ (Zpos (digits2_pos p) - 1)) by lia.
    rewrite !Z.pow_succ_r by lia.
    destruct IH as [IH1 IH2]. revert IH1 IH2.
    generalize (2 ^ (Zpos (digits2_pos p) - 1))%Z (2 ^ Zpos (digits2_pos p))%Z.
    generalize (Zpos p). lia.
  - simpl. lia.
Qed.

(** The number of binary digits of a positive number between two
    consecutive powers of two. *)
Lemma Zdigits2_unique m d :
  (1 <= d)%Z → (2 ^ (d - 1) <= m < 2 ^ d)%Z → Zdigits2 m = d.
Proof.
  intros Hd [Hlo Hhi].
  assert (0 < m)%Z by (pose proof (Z.pow_pos_nonneg 2 (d - 1)); lia).
  destruct m as [|p|p]; try lia. simpl.
  pose proof (digits2_pos_bounds p) as [Hlo' Hhi'].
  set (d' := Zpos (digits2_pos p)) in *.
  assert (d - 1 < d')%Z by (apply (Z.pow_lt_mono_r_iff 2); lia).
  assert (d' - 1 < d)%Z by (apply (Z.pow_lt_mono_r_iff 2); lia).
  lia.
Qed.

Lemma shr_1_m r : (0 <= shr_m r)%Z → shr_m (shr_1 r) = (shr_m r / 2)%Z.
Proof.
  destruct r as [m r s]. simpl.
  destruct m as [|[p|p|]|p]; simpl; intros H; try lia;
    rewrite <- Z.div2_div; reflexivity.
Qed.

Lemma iter_pos_shr_1 n r :
  (0 <= shr_m r)%Z →
  shr_m (SpecFloat.iter_pos shr_1 n r) = (shr_m r / 2 ^ Zpos n)%Z.
Proof.
  revert r. induction n as [n IH|n IH|]; intros r Hr; simpl SpecFloat.iter_pos.
  - assert (H1 : (0 <= shr_m (shr_1 r))%Z)
      by (rewrite shr_1_m by done; apply Z.div_pos; lia).
    assert (H2 : (0 <= shr_m (SpecFloat.iter_pos shr_1 n (shr_1 r)))%Z)
      by (rewrite IH by done; apply Z.div_pos; lia).
    rewrite IH, IH, shr_1_m by done.
    rewrite !Z.div_div by lia. f_equal.
    rewrite (Pos2Z.inj_xI n), Z.pow_add_r, Z.pow_mul_r, Z.pow_2_r by lia.
    rewrite Z.pow_mul_l. lia.
  - assert (H2 : (0 <= shr_m (SpecFloat.iter_pos shr_1 n r))%Z)
      by (rewrite IH by done; apply Z.div_pos; lia).
    rewrite IH, IH by done.
    rewrite !Z.div_div by lia. f_equal.
    rewrite (Pos2Z.inj_xO n), Z.pow_mul_r, Z.pow_2_r by lia.
    rewrite Z.pow_mul_l. lia.
  - by rewrite shr_1_m.
Qed.

Lemma shr_m_record_of_loc m l : shr_m (shr_record_of_loc m l) = m.
Proof. by destruct l as [|[]]. Qed.

(** Shifting a mantissa of [d] digits to the precision of binary64, away
    from the subnormal range. *)
Lemma shr_fexp_spec m e l d :
  (0 < m)%Z → Zdigits2 m = d → (-1021 <= d + e)%Z →
  ∃ mrs,
    shr_fexp pyfloat.prec pyfloat.emax m e l = (mrs, (e + Z.max 0 (d - 53))%Z)
    ∧ shr_m mrs = (m / 2 ^ Z.max 0 (d - 53))%Z.
Proof.
  intros Hm Hd He. unfold shr_fexp, shr, fexp, emin, pyfloat.prec, pyfloat.emax.
  rewrite Hd.
  replace (Z.max (d + e - 53) (3 - 1024 - 53) - e)%Z with (d - 53)%Z by lia.
  destruct (d - 53)%Z as [|n|n] eqn:E.
  - eexists. split; [by rewrite Z.add_0_r|].
    rewrite shr_m_record_of_loc. simpl. by rewrite Z.div_1_r.
  - eexists. split; [by rewrite Z.max_r by lia|].
    rewrite iter_pos_shr_1 by (rewrite shr_m_record_of_loc; lia).
    rewrite shr_m_record_of_loc. by rewrite Z.max_r by lia.
  - eexists. split; [by rewrite Z.max_l, Z.add_0_r by lia|].
    rewrite shr_m_record_of_loc, Z.max_l by lia. simpl. by rewrite Z.div_1_r.
Qed.

Lemma round_nearest_even_range m l :
  (m <= round_nearest_even m l <= m + 1)%Z.
Proof.
  destruct l as [|[]]; simpl; try lia. destruct (Z.even m); lia.
Qed.

Lemma div_pow2_digits m d :
  (53 <= d)%Z → (2 ^ (d - 1) <= m < 2 ^ d)%Z →
  (2 ^ 52 <= m / 2 ^ (d - 53) < 2 ^ 53)%Z.
Proof.
  intros Hd [Hlo Hhi].
  assert (Hp : (0 < 2 ^ (d - 53))%Z) by (apply Z.pow_pos_nonneg; lia).
  assert (E1 : (2 ^ (d - 1) = 2 ^ 52 * 2 ^ (d - 53))%Z)
    by (rewrite <- Z.pow_add_r by lia; f_equal; lia).
  assert (E2 : (2 ^ d = 2 ^ 53 * 2 ^ (d - 53))%Z)
    by (rewrite <- Z.pow_add_r by lia; f_equal; lia).
  split.
  - apply Z.div_le_lower_bound; lia.
  - apply Z.div_lt_upper_bound; lia.
Qed.

Lemma Zdigits2_bounds m :
  (0 < m)%Z → (1 <= Zdigits2 m)%Z ∧ (2 ^ (Zdigits2 m - 1) <= m < 2 ^ Zdigits2 m)%Z.
Proof.
  destruct m as [|p|p]; try lia. intros _. simpl.
  split; [lia|apply digits2_pos_bounds].
Qed.

(** Rounding a mantissa of at least 53 digits: the result is a normal
    number with a full mantissa, or an infinity when the exponent is out
    of range. *)
Lemma binary_round_aux_spec s m e l :
  (0 < m)%Z → (53 <= Zdigits2 m)%Z → (-1021 <= Zdigits2 m + e)%Z →
  ∃ m' e',
    (2 ^ 52 <= Zpos m' < 2 ^ 53)%Z
    ∧ (e + Zdigits2 m - 53 <= e' <= e + Zdigits2 m - 52)%Z
    ∧ binary_round_aux pyfloat.prec pyfloat.emax s m e l
      = if (e' <=? 971)%Z then S754_finite s m' e' else S754_infinity s.
Proof.
  intros Hm Hd He. set (d := Zdigits2 m) in *.
  destruct (Zdigits2_bounds m Hm) as [_ Hb]. fold d in Hb.
  unfold binary_round_aux.
  destruct (shr_fexp_spec m e l d Hm eq_refl He) as (mrs1 & -> & Hm1).
  rewrite Z.max_r in Hm1 |- * by lia.
  pose proof (div_pow2_digits m d Hd Hb) as Hr1. rewrite <- Hm1 in Hr1.
  set (m2 := round_nearest_even (shr_m mrs1) (loc_of_shr_record mrs1)).
  pose proof (round_nearest_even_range (shr_m mrs1) (loc_of_shr_record mrs1)) as Hr2.
  fold m2 in Hr2.
  destruct (decide (m2 < 2 ^ 53)%Z) as [Hlt|Hge].
  - assert (Hd2 : Zdigits2 m2 = 53%Z) by (apply Zdigits2_unique; simpl; lia).
    destruct (shr_fexp_spec m2 (e + (d - 53)) loc_Exact 53) as (mrs2 & -> & Hm2);
      [lia|done|lia|].
    simpl in Hm2. rewrite Z.div_1_r in Hm2. rewrite Hm2.
    destruct m2 as [|p2|p2]; try lia.
    exists p2, (e + (d - 53) + 0)%Z. split; [lia|]. split; [lia|done].
  - assert (Hm2' : m2 = (2 ^ 53)%Z) by lia.
    assert (Hd2 : Zdigits2 m2 = 54%Z) by (rewrite Hm2'; reflexivity).
    destruct (shr_fexp_spec m2 (e + (d - 53)) loc_Exact 54) as (mrs2 & -> & Hm2);
      [lia|done|lia|].
    rewrite Hm2' in Hm2. simpl in Hm2. rewrite Hm2.
    exists (4503599627370496)%positive, (e + (d - 53) + 1)%Z.
    split; [simpl; lia|]. split; [lia|done].
Qed.

Lemma iter_xO p d : Zpos (Pos.iter xO p d) = (Zpos p * 2 ^ Zpos d)%Z.
Proof.
  rewrite (Pos.iter_swap_gen _ _ Zpos xO (Z.mul 2)) by (intros; apply Pos2Z.inj_xO).
  rewrite <- Z.shiftl_mul_pow2 by lia. reflexivity.
Qed.

(** Conversion of a non-zero integer: a full mantissa, and an exponent
    given by the number of digits, or an infinity. *)
Lemma binary_round_spec s p :
  ∃ m e,
    (2 ^ 52 <= Zpos m < 2 ^ 53)%Z
    ∧ (Zpos (digits2_pos p) - 53 <= e <= Zpos (digits2_pos p) - 52)%Z
    ∧ binary_round pyfloat.prec pyfloat.emax s p 0
      = if (e <=? 971)%Z then S754_finite s m e else S754_infinity s.
Proof.
  pose proof (digits2_pos_bounds p) as Hb.
  unfold binary_round, shl_align.
  set (d := Zpos (digits2_pos p)) in *.
  assert (Hd : (1 <= d)%Z) by (subst d; lia).
  assert (Hf : fexp pyfloat.prec pyfloat.emax (d + 0) = (d - 53)%Z)
    by (unfold fexp, emin, pyfloat.prec, pyfloat.emax; lia).
  rewrite Hf, Z.sub_0_r.
  destruct (d - 53)%Z as [|k|k] eqn:Ek.
  - destruct (binary_round_aux_spec s (Zpos p) 0 loc_Exact) as (m & e & Hm & He & ->);
      [lia|simpl; fold d; lia..|].
    simpl Zdigits2 in He. fold d in He. exists m, e. split; [done|]. split; [lia|done].
  - destruct (binary_round_aux_spec s (Zpos p) 0 loc_Exact) as (m & e & Hm & He & ->);
      [lia|simpl; fold d; lia..|].
    simpl Zdigits2 in He. fold d in He. exists m, e. split; [done|]. split; [lia|done].
  - assert (Hz : Zdigits2 (Zpos (Pos.iter xO p k)) = 53%Z).
    { apply Zdigits2_unique; [lia|]. rewrite iter_xO.
      assert (Hk : Zpos k = (53 - d)%Z) by lia. rewrite Hk.
      assert (E1 : (2 ^ (53 - 1) = 2 ^ (d - 1) * 2 ^ (53 - d))%Z)
        by (rewrite <- Z.pow_add_r by lia; f_equal; lia).
      assert (E2 : (2 ^ 53 = 2 ^ d * 2 ^ (53 - d))%Z)
        by (rewrite <- Z.pow_add_r by lia; f_equal; lia).
      assert (Hp : (0 < 2 ^ (53 - d))%Z) by (apply Z.pow_pos_nonneg; lia).
      rewrite E1, E2. split.
      - apply Z.mul_le_mono_nonneg_r; lia.
      - apply Z.mul_lt_mono_pos_r; lia. }
    destruct (binary_round_aux_spec s (Zpos (Pos.iter xO p k)) (Zneg k) loc_Exact)
      as (m & e & Hm & He & ->); [lia|lia|lia|].
    rewrite Hz in He. exists m, e. split; [done|]. split; [lia|done].
Qed.

Lemma of_int_shape aw x :
  aw ≠ 0%Z → pyfloat.of_int aw = Return x →
  ∃ m e,
    x = S754_finite (aw <? 0)%Z m e
    ∧ (2 ^ 52 <= Zpos m < 2 ^ 53)%Z
    ∧ (Zdigits2 aw - 53 <= e <= 971)%Z.
Proof.
  intros Hz. unfold pyfloat.of_int, binary_normalize.
  destruct aw as [|p|p]; [done|..].
  - destruct (binary_round_spec false p) as (m & e & Hm & He & ->).
    destruct (Z.leb_spec e 971); [|done].
    intros [= <-]. exists m, e. split; [done|]. split; [done|]. simpl. lia.
  - destruct (binary_round_spec true p) as (m & e & Hm & He & ->).
    destruct (Z.leb_spec e 971); [|done].
    intros [= <-]. exists m, e. split; [done|]. split; [done|]. simpl. lia.
Qed.

(** An integer below [2 ^ 1023] in magnitude is converted without
    overflow. *)
Lemma of_int_returns aw :
  (Z.abs aw < 2 ^ 1023)%Z → ∃ x, pyfloat.of_int aw = Return x.
Proof.
  intros Ha. unfold pyfloat.of_int, binary_normalize.
  assert (Hd : ∀ p, (Zpos p < 2 ^ 1023)%Z → (Zpos (digits2_pos p) - 1 < 1023)%Z).
  { intros p Hp. pose proof (digits2_pos_bounds p) as [Hlo _].
    apply (Z.pow_lt_mono_r_iff 2); lia. }
  destruct aw as [|p|p]; [by eexists|..].
  - destruct (binary_round_spec false p) as (m & e & Hm & He & ->).
    specialize (Hd p Ha).
    replace (e <=? 971)%Z with true by lia. by eexists.
  - destruct (binary_round_spec true p) as (m & e & Hm & He & ->).
    specialize (Hd p Ha).
    replace (e <=? 971)%Z with true by lia. by eexists.
Qed.

(** Division of a normal number by 15.0: a normal number again. *)
Lemma div_fifteen s m e :
  (2 ^ 52 <= Zpos m < 2 ^ 53)%Z → (-52 <= e <= 971)%Z →
  ∃ m' e',
    SFdiv pyfloat.prec pyfloat.emax (S754_finite s m e) fifteen = S754_finite s m' e'
    ∧ (2 ^ 52 <= Zpos m' < 2 ^ 53)%Z
    ∧ (e - 4 <= e' <= e - 2)%Z.
Proof.
  intros Hm He. unfold fifteen, SFdiv, SFdiv_core_binary.
  rewrite (Zdigits2_unique (Zpos m) 53) by (simpl; lia).
  change (Zdigits2 (Zpos 8444249301319680)) with 53%Z.
  unfold fexp, emin, pyfloat.prec, pyfloat.emax.
  replace (Z.min (Z.max (53 + e - (53 + -49) - 53) (3 - 1024 - 53)) (e - -49))%Z
    with (e - 4)%Z by lia.
  replace (e - -49 - (e - 4))%Z with 53%Z by lia.
  rewrite Z.shiftl_mul_pow2 by lia.
  pose proof (Z_div_mod (Zpos m * 2 ^ 53) 8444249301319680 eq_refl) as Hdiv.
  destruct (Z.div_eucl (Zpos m * 2 ^ 53) 8444249301319680) as [q r].
  destruct Hdiv as [Hq Hr].
  change (2 ^ 53)%Z with 9007199254740992%Z in *.
  change (2 ^ 52)%Z with 4503599627370496%Z in *.
  assert (Hqb : (4503599627370496 <= q < 2 * 9007199254740992)%Z) by lia.
  assert (Hqd : Zdigits2 q = 53%Z ∨ Zdigits2 q = 54%Z).
  { destruct (decide (q < 9007199254740992)%Z).
    - left. apply Zdigits2_unique; simpl; lia.
    - right. apply Zdigits2_unique; simpl; lia. }
  change (binary_round_aux 53 1024)
    with (binary_round_aux pyfloat.prec pyfloat.emax).
  destruct (binary_round_aux_spec (xorb s false) q (e - 4) (new_location 8444249301319680 r))
    as (m' & e' & Hm' & He' & ->); [lia|lia|lia|].
  replace (e' <=? 971)%Z with true by lia.
  rewrite xorb_false_r. exists m', e'. split; [done|]. split; [done|lia].
Qed.

Lemma shiftl_large m e :
  (2 ^ 52 <= m)%Z → (-45 <= e)%Z → (128 <= Z.shiftl m e)%Z.
Proof.
  intros Hm He. destruct (decide (0 <= e)%Z) as [H|H].
  - rewrite Z.shiftl_mul_pow2 by done.
    assert (0 < 2 ^ e)%Z by (apply Z.pow_pos_nonneg; lia).
    change (2 ^ 52)%Z with 4503599627370496%Z in Hm. nia.
  - rewrite Z.shiftl_div_pow2 by lia.
    assert (Hp : (0 < 2 ^ (- e))%Z) by (apply Z.pow_pos_nonneg; lia).
    apply Z.div_le_lower_bound; [done|].
    assert (Hle : (2 ^ (- e) <= 2 ^ 45)%Z) by (apply Z.pow_le_mono_r; lia).
    change (2 ^ 45)%Z with 35184372088832%Z in Hle.
    change (2 ^ 52)%Z with 4503599627370496%Z in Hm. lia.
Qed.

Lemma width_max_chars_default aw :
  width_max_chars aw default_scale_factor default_avg_char_width
  = w ← pyfloat.of_int aw;
    q ← pyfloat.truediv w fifteen;
    n ← pyfloat.to_int q;
    Return (Z.min (Z.max 1 n) 75).
Proof. reflexivity. Qed.

Lemma small_widths_agree :
  forallb width_limit_agrees (map Z.of_nat (seq 0 2048)) = true.
Proof. vm_compute. reflexivity. Qed.

(** The limit computed from the geometry, for every available width that
    can be converted to a float. *)
Lemma width_max_chars_spec aw x :
  pyfloat.of_int aw = Return x →
  width_max_chars aw default_scale_factor default_avg_char_width
  = Return (planMaxChars aw 0 0).
Proof.
  intros Hx.
  destruct (decide (0 <= aw < 2048)%Z) as [Hsmall|Hbig].
  - pose proof small_widths_agree as H. rewrite forallb_forall in H.
    specialize (H aw). unfold width_limit_agrees in H.
    destruct (width_max_chars aw _ _) as [n| |].
    + rewrite (proj1 (Z.eqb_eq _ _) (H ltac:(apply in_map_iff; exists (Z.to_nat aw);
        split; [lia|apply in_seq; lia]))). done.
    + exfalso. eapply eq_true_false_abs; [|reflexivity].
      apply H. apply in_map_iff. exists (Z.to_nat aw). split; [lia|apply in_seq; lia].
    + exfalso. eapply eq_true_false_abs; [|reflexivity].
      apply H. apply in_map_iff. exists (Z.to_nat aw). split; [lia|apply in_seq; lia].
  - rewrite width_max_chars_default, Hx. simpl.
    destruct (of_int_shape aw x) as (m & e & -> & Hm & He); [lia|done|].
    destruct (div_fifteen (aw <? 0)%Z m e) as (m' & e' & Hq & Hm' & He'); [done| |].
    { assert (1 <= Zdigits2 aw)%Z by (destruct aw; simpl; lia). lia. }
    unfold pyfloat.truediv, fifteen in *. rewrite Hq. simpl.
    unfold planMaxChars. f_equal.
    destruct (Z.ltb_spec aw 0) as [Hneg|Hpos].
    + assert (0 <= Z.shiftl (Zpos m') e')%Z by (apply Z.shiftl_nonneg; lia).
      rewrite (Z.max_l 1 (aw - 0 - 0)) by lia.
      change (1 / 15)%Z with 0%Z. lia.
    + assert (Hd : (12 <= Zdigits2 aw)%Z).
      { destruct (Zdigits2_bounds aw) as [_ [_ Hhi]]; [lia|].
        destruct (decide (12 <= Zdigits2 aw)%Z); [done|].
        assert (2 ^ Zdigits2 aw <= 2 ^ 11)%Z by (apply Z.pow_le_mono_r; lia).
        change (2 ^ 11)%Z with 2048%Z in *. lia. }
      assert (128 <= Z.shiftl (Zpos m') e')%Z by (apply shiftl_large; lia).
      assert (136 <= Z.max 1 (aw - 0 - 0) / 15)%Z
        by (apply Z.div_le_lower_bound; lia).
      lia.
Qed.

Lemma planMaxChars_available viewWidth leftMargin rightMargin :
  planMaxChars viewWidth leftMargin rightMargin
  = planMaxChars (viewWidth - leftMargin - rightMargin) 0 0.
Proof. unfold planMaxChars. do 3 f_equal. lia. Qed.

(** C9 (as stated, refuted).  On a page [2 ^ 1024 + 100] units wide with
    the default margins the specification's limit is 75, but the
    available width cannot be converted to a float: the division raises
    [OverflowError] and [main] ends with it. *)
Lemma C9_huge_width_overflows :
  planMaxChars (arg_view_width wide_args) (arg_left_margin wide_args)
    (arg_right_margin wide_args) = 75%Z
  ∧ width_max_chars
      (arg_view_width wide_args - arg_left_margin wide_args - arg_right_margin wide_args)
      default_scale_factor default_avg_char_width = Raise OverflowError
  ∧ main sample_alphabet ascii_isalnum ascii_isdecimal wide_args (s2l "hi")
    = Uncaught OverflowError.
Proof. split_and!; vm_compute; reflexivity. Qed.

(** C9 (amended).  When [--max-chars] is left at 75 and the available
    width [view_width - left_margin - right_margin] can be converted to a
    float, the limit that [wrap_text_to_width] computes with the default
    scale factor 1.5 and character width 10 is
    [floor(max(1, available width) / 15)] clamped to [[1, 75]], and
    [main] wraps the filtered text with that limit; for a width of 1000
    and margins of 50 the limit is 60. *)
Theorem C9_geometry_limit (alphabet : list char)
    (isalnum isdecimal : char -> bool) (args : Args) (text : str)
    (x : pyfloat.float) :
  arg_max_chars args = 75%Z →
  pyfloat.of_int (arg_view_width args - arg_left_margin args - arg_right_margin args)
  = Return x →
  width_max_chars
    (arg_view_width args - arg_left_margin args - arg_right_margin args)
    default_scale_factor default_avg_char_width
  = Return (planMaxChars (arg_view_width args) (arg_left_margin args)
              (arg_right_margin args))
  ∧ main_lines alphabet isalnum isdecimal args text
    = wrap_text isalnum isdecimal (validate_text alphabet text)
        (planMaxChars (arg_view_width args) (arg_left_margin args)
           (arg_right_margin args))
  ∧ planMaxChars 1000 50 50 = 60%Z.
Proof.
  intros Hm Hx.
  assert (H : width_max_chars
    (arg_view_width args - arg_left_margin args - arg_right_margin args)
    default_scale_factor default_avg_char_width
    = Return (planMaxChars (arg_view_width args) (arg_left_margin args)
                (arg_right_margin args))).
  { rewrite planMaxChars_available. by eapply width_max_chars_spec. }
  split_and!; [done| |reflexivity].
  unfold main_lines, wrap_text_to_width. rewrite Hm, H. reflexivity.
Qed.

Lemma C9_witness :
  width_max_chars 900 default_scale_factor default_avg_char_width = Return 60%Z
  ∧ main_lines sample_alphabet ascii_isalnum ascii_isdecimal default_args (s2l "hi")
    = wrap_text ascii_isalnum ascii_isdecimal
        (validate_text sample_alphabet (s2l "hi")) 60.
Proof.
  pose proof (C9_geometry_limit sample_alphabet ascii_isalnum ascii_isdecimal
                default_args (s2l "hi")
                (S754_finite false 7916483719987200 (-43))
                eq_refl eq_refl) as (H1 & H2 & _).
  split; [exact H1|exact H2].
Defined.

(** The conversion succeeds for every available width below [2 ^ 1023]
    in magnitude, so the limit is then the one of [planMaxChars]. *)
Lemma width_max_chars_below_2_1023 aw :
  (Z.abs aw < 2 ^ 1023)%Z →
  width_max_chars aw default_scale_factor default_avg_char_width
  = Return (planMaxChars aw 0 0).
Proof.
  intros [x Hx]%of_int_returns. by eapply width_max_chars_spec.
Qed.

(** ** The examples of the specification, run on the model *)

Example substitution_curly_quotes :
  validate_text sample_alphabet (chr_lsquo :: s2l "Hello" ++ [chr_rsquo])
  = s2l "'Hello'".
Proof. vm_compute. reflexivity. Qed.

Example substitution_em_dash :
  validate_text sample_alphabet (s2l "a" ++ [chr_emdash] ++ s2l "b") = s2l "a-b".
Proof. vm_compute. reflexivity. Qed.

Example substitution_ellipsis :
  validate_text sample_alphabet (s2l "wait" ++ [chr_ellipsis]) = s2l "wait...".
Proof. vm_compute. reflexivity. Qed.

(** A word of 100 characters, wrapped at 20, is cut into five lines that
    together hold the word. *)
Example long_word_is_broken :
  wrap_text ascii_isalnum ascii_isdecimal (repeat 97%N 100) 20
  = Return (repeat (repeat 97%N 20) 5).
Proof. vm_compute. reflexivity. Qed.

(** The page height printed by [main] for three lines of height 60. *)
Example height_of_three_lines :
  ∃ call,
    main sample_alphabet ascii_isalnum ascii_isdecimal default_args
      (s2l "a" ++ [chr_newline] ++ s2l "b" ++ [chr_newline] ++ s2l "c")
    = Write_svg 240 call.
Proof. eexists. vm_compute. reflexivity. Qed.

(** Without the blank in the alphabet the filter is not idempotent: a tab
    becomes a blank, and the blank is dropped by a second pass. *)
Example replacements_must_be_supported :
  validate_text [] [chr_tab] = [chr_space]
  ∧ validate_text [] [chr_space] = [].
Proof. split; vm_compute; reflexivity. Qed.

(** ** The model always ends *)

Section Ends.

Variable alphabet : list char.
Variable isalnum : char -> bool.
Variable isdecimal : char -> bool.

Lemma wrap_paragraph_ends max_chars para :
  wrap_paragraph isalnum isdecimal max_chars para ≠ Diverge.
Proof.
  destruct (decide (1 <= max_chars)%Z) as [Hm|Hm].
  - by destruct (wrap_paragraph_positive isalnum isdecimal max_chars para Hm)
      as (new & -> & _).
  - destruct (is_empty (strip para)) eqn:E.
    + by rewrite wrap_paragraph_blank.
    + by rewrite wrap_paragraph_nonpositive by (done || lia).
Qed.

Lemma wrap_text_ends text max_chars :
  wrap_text isalnum isdecimal text max_chars ≠ Diverge.
Proof.
  unfold wrap_text. generalize (@nil (list N)) as lines.
  induction (split text chr_newline) as [|para paras IH]; intros lines; simpl; [done|].
  pose proof (wrap_paragraph_ends (Z.min max_chars 75) para) as H.
  destruct (wrap_paragraph isalnum isdecimal (Z.min max_chars 75) para);
    simpl; [apply IH|done..].
Qed.

Lemma width_max_chars_ends aw scale_factor avg_char_width :
  width_max_chars aw scale_factor avg_char_width ≠ Diverge.
Proof.
  unfold width_max_chars, pyfloat.of_int, pyfloat.truediv, pyfloat.to_int.
  repeat (match goal with
          | |- context [match ?x with _ => _ end] => destruct x
          end; simpl; try done).
Qed.

(** [main] ends with an exit, an exception or the call of [hand.write]. *)
Lemma main_ends args text :
  main alphabet isalnum isdecimal args text ≠ NoResult.
Proof.
  unfold main. destruct (is_empty (strip text)); [done|].
  destruct (main_lines alphabet isalnum isdecimal args text) as [out| |] eqn:E.
  - by destruct (is_empty out).
  - done.
  - exfalso. unfold main_lines, wrap_text_to_width in E.
    destruct (negb _); [by apply wrap_text_ends in E|].
    pose proof (width_max_chars_ends
      (arg_view_width args - arg_left_margin args - arg_right_margin args)
      default_scale_factor default_avg_char_width) as H.
    destruct (width_max_chars _ _ _); simpl in E; [|done..].
    by apply wrap_text_ends in E.
Qed.

End Ends.

(** * Further properties *)

(** ** [validate_text] *)

Lemma normalize_char_no_newline alphabet c :
  c ≠ chr_newline →
  Forall (fun x => x ≠ chr_newline) (fst (normalize_char alphabet c)).
Proof.
  intros Hc. unfold normalize_char, SubstitutionTable.
  destruct (bool_decide (c ∈ alphabet)); simpl; [by repeat constructor|].
  destruct (N.eqb_spec c chr_newline); [done|].
  repeat (match goal with |- context [if ?b then _ else _] => destruct b end;
          simpl; try by repeat constructor).
Qed.

Lemma normalize_char_newline alphabet :
  fst (normalize_char alphabet chr_newline) = [chr_newline].
Proof. apply normalize_char_supported. by right. Qed.

Lemma validate_text_cons alphabet c text :
  validate_text alphabet (c :: text)
  = fst (normalize_char alphabet c) ++ validate_text alphabet text.
Proof. by rewrite !validate_text_normalize. Qed.

Lemma split_app_no_sep e r sep :
  Forall (fun x => x ≠ sep) e →
  split (e ++ r) sep
  = match split r sep with
    | h :: tl => (e ++ h) :: tl
    | [] => [e]
    end.
Proof.
  pose proof (split_nonempty r sep) as Hr.
  induction 1 as [|x e Hx _ IH]; simpl.
  - by destruct (split r sep).
  - destruct (N.eqb_spec x sep); [done|]. rewrite IH.
    by destruct (split r sep).
Qed.

(** X1.  [validate_text] works character by character: the filtered
    text of a concatenation is the concatenation of the filtered texts,
    and the characters reported for it are those reported for either
    part. *)
Theorem X1_validate_text_app (alphabet : list char) (a b : str) :
  validate_text alphabet (a ++ b)
  = validate_text alphabet a ++ validate_text alphabet b
  ∧ validate_text_invalid alphabet (a ++ b)
    = validate_text_invalid alphabet a ∪ validate_text_invalid alphabet b.
Proof.
  split.
  - rewrite !validate_text_normalize. unfold normalize. simpl.
    by rewrite map_app, concat_app.
  - apply set_eq. intros c.
    rewrite elem_of_union, !validate_text_invalid_spec, elem_of_app. tauto.
Qed.

Lemma validate_text_split (alphabet : list char) (text : str) :
  split (validate_text alphabet text) chr_newline
  = map (validate_text alphabet) (split text chr_newline).
Proof.
  induction text as [|c text IH]; [done|].
  rewrite validate_text_cons. simpl split at 2.
  destruct (N.eqb_spec c chr_newline) as [->|Hc].
  - rewrite normalize_char_newline. simpl. by rewrite IH.
  - rewrite split_app_no_sep by (by apply normalize_char_no_newline).
    rewrite IH. pose proof (split_nonempty text chr_newline).
    destruct (split text chr_newline) as [|p ps]; [done|]. simpl.
    by rewrite validate_text_cons.
Qed.

(** X2.  [validate_text] keeps the paragraphs apart: the paragraphs of
    the filtered text are the filtered paragraphs of the text, one for
    one, so it neither joins nor drops a line of the input. *)
Theorem X2_validate_text_paragraphs (alphabet : list char) (text : str) :
  split (validate_text alphabet text) chr_newline
  = map (validate_text alphabet) (split text chr_newline).
Proof. apply validate_text_split. Qed.

Lemma normalize_char_length alphabet c :
  length (fst (normalize_char alphabet c)) ≤ 3
  ∧ (c ≠ chr_ellipsis → length (fst (normalize_char alphabet c)) ≤ 1).
Proof.
  unfold normalize_char, SubstitutionTable.
  repeat (match goal with
          | |- context [if ?b then _ else _] => destruct b eqn:?
          end);
    simpl; (split; [lia|intros Hc; try lia]).
  match goal with H : in_str c [chr_ellipsis] = true |- _ =>
    unfold in_str in H; simpl in H; rewrite orb_false_r in H;
    apply N.eqb_eq in H end.
  done.
Qed.

(** X3.  The filtered text is at most three times as long as the text,
    and not longer than the text when the text has no ellipsis
    character. *)
Theorem X3_validate_text_length (alphabet : list char) (text : str) :
  length (validate_text alphabet text) ≤ 3 * length text
  ∧ (chr_ellipsis ∉ text →
     length (validate_text alphabet text) ≤ length text).
Proof.
  induction text as [|c text [IH1 IH2]]; [by split|].
  rewrite validate_text_cons, length_app. simpl length.
  destruct (normalize_char_length alphabet c) as [H3 H1].
  split; [lia|].
  intros Hn. apply not_elem_of_cons in Hn as [Hc Hn].
  specialize (IH2 Hn). specialize (H1 (not_eq_sym Hc)). lia.
Qed.

Lemma X3_witness :
  length (validate_text sample_alphabet (s2l "Hello, world"))
  ≤ length (s2l "Hello, world").
Proof.
  apply (proj2 (X3_validate_text_length sample_alphabet (s2l "Hello, world"))).
  apply (bool_decide_unpack _). vm_compute. exact I.
Defined.

(** X4.  The warning is left out exactly when every character of the
    text is in the alphabet, a newline or a tab. *)
Theorem X4_no_warning_iff (alphabet : list char) (text : str) :
  validate_text_warning alphabet text = None ↔
  Forall (fun c => c ∈ alphabet ∨ c = chr_newline ∨ c = chr_tab) text.
Proof.
  unfold validate_text_warning.
  destruct (bool_decide (validate_text_invalid alphabet text = ∅)) eqn:E.
  - apply bool_decide_eq_true_1 in E. split; [intros _|done].
    apply Forall_forall. intros c Hc.
    destruct (decide (c ∈ alphabet)); [by left|right].
    destruct (decide (c = chr_newline)); [by left|right].
    destruct (decide (c = chr_tab)); [done|].
    assert (H : c ∈ validate_text_invalid alphabet text)
      by (by apply validate_text_invalid_spec).
    rewrite E in H. by apply not_elem_of_empty in H.
  - apply bool_decide_eq_false_1 in E. split; [done|]. intros H.
    destruct E. apply set_eq. intros c. rewrite validate_text_invalid_spec.
    rewrite Forall_forall in H. split; [|by intros ?%not_elem_of_empty].
    intros (Hin & Ha & Hn & Ht). destruct (H c Hin) as [?|[?|?]]; done.
Qed.

(** ** What [textwrap] keeps of the text *)

Lemma substr_drop (s : str) a b : a ≤ b → substr s a b ++ drop b s = drop a s.
Proof.
  intros H. unfold substr.
  replace b with (a + (b - a)) at 2 by lia.
  rewrite <- drop_drop. apply take_drop.
Qed.

Lemma substr_to_end (s : str) a : substr s a (length s) = drop a s.
Proof. unfold substr. apply take_ge. rewrite length_drop. lia. Qed.

(** The pieces of [wordsep_re.split] make up the text. *)
Lemma re_split_from_concat isalnum isdecimal s n last pos :
  last ≤ pos →
  concat (textwrap.re_split_from isalnum isdecimal s n last pos) = drop last s.
Proof.
  revert last pos. induction n as [|n IH]; intros last pos H; simpl.
  - by rewrite app_nil_r, substr_to_end.
  - destruct (textwrap.wordsep_match isalnum isdecimal s pos) as [e|] eqn:E.
    + apply wordsep_match_progress in E. simpl.
      rewrite IH by lia.
      rewrite (substr_drop s pos e) by lia. by apply substr_drop.
    + apply IH. lia.
Qed.

Lemma concat_filter_chunks (l : list str) :
  concat (filter (fun c => negb (is_empty c)) l) = concat l.
Proof.
  induction l as [|c l IH]; [done|].
  rewrite filter_cons. destruct c; simpl; [done|]. by rewrite IH.
Qed.

(** The chunks make up the text in which whitespace has been replaced. *)
Lemma split_chunks_concat isalnum isdecimal text :
  concat (textwrap._split_chunks isalnum isdecimal text)
  = textwrap._munge_whitespace text.
Proof.
  unfold textwrap._split_chunks, textwrap._split, textwrap.re_split.
  by rewrite concat_filter_chunks, re_split_from_concat.
Qed.

Lemma non_space_app a b : non_space (a ++ b) = non_space a ++ non_space b.
Proof. apply List.filter_app. Qed.

Lemma non_space_blank s :
  Forall (fun c => py_isspace c = true) s → non_space s = [].
Proof.
  induction 1 as [|c s Hc _ IH]; [done|]. unfold non_space in *. simpl.
  by rewrite Hc.
Qed.

Lemma is_blank_spec c :
  textwrap.is_blank c = true ↔ Forall (fun x => py_isspace x = true) c.
Proof. apply strip_empty. Qed.

Lemma expandtabs_from_non_space col s :
  non_space (expandtabs_from 8 col s) = non_space s.
Proof.
  revert col. induction s as [|c s IH]; intros col; [done|]. simpl.
  destruct (N.eqb_spec c chr_tab) as [->|Hc].
  - simpl. rewrite non_space_app, IH.
    rewrite non_space_blank; [done|].
    apply Forall_forall. intros x Hx. apply list_elem_of_In in Hx.
    by apply repeat_spec in Hx as ->.
  - unfold non_space in *. simpl. by rewrite IH.
Qed.

Lemma translate_char c :
  (py_isspace c = true
   ∧ (if in_str c textwrap._whitespace then chr_space else c) = chr_space
   ∨ in_str c textwrap._whitespace = false).
Proof.
  destruct (in_str c textwrap._whitespace) eqn:E; [left|by right].
  split; [|done].
  unfold in_str, textwrap._whitespace in E. simpl in E.
  rewrite !orb_true_iff, !N.eqb_eq in E.
  destruct E as [->|[->|[->|[->|[->|[->|E]]]]]]; try reflexivity.
  discriminate.
Qed.

Lemma translate_whitespace_non_space s :
  non_space (textwrap.translate_whitespace s) = non_space s.
Proof.
  unfold textwrap.translate_whitespace, non_space.
  induction s as [|c s IH]; [done|]. cbn [map List.filter]. rewrite IH.
  destruct (translate_char c) as [[Hc ->] | ->]; [|done].
  by rewrite Hc.
Qed.

Lemma munge_whitespace_non_space s :
  non_space (textwrap._munge_whitespace s) = non_space s.
Proof.
  unfold textwrap._munge_whitespace, expandtabs.
  by rewrite translate_whitespace_non_space, expandtabs_from_non_space.
Qed.

Lemma split_non_space s :
  non_space (concat (split s chr_newline)) = non_space s.
Proof.
  induction s as [|c s IH]; [done|]. simpl.
  destruct (N.eqb_spec c chr_newline) as [->|Hc]; simpl; [done|].
  pose proof (split_nonempty s chr_newline).
  destruct (split s chr_newline) as [|p ps]; [done|].
  simpl in *. unfold non_space in *. simpl. by rewrite IH.
Qed.

Lemma handle_long_word_parts chunks cur_line cur_len width chunks' cur_line' :
  textwrap._handle_long_word chunks cur_line cur_len width = (chunks', cur_line') →
  concat cur_line' ++ concat chunks' = concat cur_line ++ concat chunks.
Proof.
  unfold textwrap._handle_long_word. destruct chunks as [|chunk below].
  - by intros [= <- <-].
  - intros [= <- <-]. rewrite concat_app. simpl.
    rewrite app_nil_r, <- app_assoc. f_equal.
    by rewrite app_assoc, slice_to_from.
Qed.

(** One pass of the loop: the text on the stack is, in order, a chunk of
    whitespace that is dropped (or nothing), the line, a chunk of
    whitespace that is dropped (or nothing), and the text left on the
    stack. *)
Lemma wrap_pass_parts width top below lines chunks' lines' :
  textwrap.wrap_pass width top below lines = (chunks', lines') →
  ∃ dropped1 line dropped2,
    concat (top :: below) = dropped1 ++ line ++ dropped2 ++ concat chunks'
    ∧ Forall (fun c => py_isspace c = true) dropped1
    ∧ Forall (fun c => py_isspace c = true) dropped2
    ∧ (lines' = lines ++ [line] ∨ (lines' = lines ∧ line = [])).
Proof.
  unfold textwrap.wrap_pass.
  set (chunks1 := if (_ && _)%bool then below else top :: below).
  assert (H1 : ∃ dropped1, concat (top :: below) = dropped1 ++ concat chunks1
                 ∧ Forall (fun c => py_isspace c = true) dropped1).
  { subst chunks1. destruct (textwrap.is_blank top) eqn:Eb; simpl.
    - destruct (negb (is_empty lines)).
      + exists top. split; [done|]. by apply is_blank_spec.
      + by exists [].
    - by exists []. }
  destruct H1 as (dropped1 & -> & Hd1). clearbody chunks1.
  destruct (textwrap.fill_line width chunks1 [] 0) as [[chunks2 cur_line] cur_len] eqn:Hfill.
  apply fill_line_inv in Hfill as (taken & -> & Hcl & _).
  simpl in Hcl. subst cur_line.
  set (step := match chunks2 with
               | [] => (chunks2, taken, cur_len)
               | c :: _ => _
               end).
  assert (H3 : ∃ chunks3 cur_line3 cur_len3,
    step = (chunks3, cur_line3, cur_len3)
    ∧ concat cur_line3 ++ concat chunks3 = concat taken ++ concat chunks2).
  { subst step. destruct chunks2 as [|c rest]; [by eexists _, _, _|].
    destruct (width <? len c)%Z; [|by eexists _, _, _].
    destruct (textwrap._handle_long_word (c :: rest) taken cur_len width)
      as [chunks3 cur_line3] eqn:E.
    apply handle_long_word_parts in E. by eexists _, _, _. }
  destruct H3 as (chunks3 & cur_line3 & cur_len3 & -> & H3).
  set (drop_ := match last cur_line3 with Some c => _ | None => _ end).
  assert (H4 : ∃ cur_line4 cur_len4 dropped2,
    drop_ = (cur_line4, cur_len4)
    ∧ concat cur_line3 = concat cur_line4 ++ dropped2
    ∧ Forall (fun c => py_isspace c = true) dropped2).
  { subst drop_. destruct (last cur_line3) as [c|] eqn:El.
    - destruct (textwrap.is_blank c) eqn:Eb.
      + apply last_Some in El as [l' ->]. rewrite removelast_last.
        eexists _, _, c. split; [done|]. rewrite concat_app. simpl.
        rewrite app_nil_r. split; [done|]. by apply is_blank_spec.
      + eexists _, _, []. by rewrite app_nil_r.
    - eexists _, _, []. by rewrite app_nil_r. }
  destruct H4 as (cur_line4 & cur_len4 & dropped2 & -> & H4 & Hd2).
  intros [= <- <-].
  exists dropped1, (concat cur_line4), dropped2.
  split.
  - rewrite concat_app, <- H3, H4, <- !app_assoc. done.
  - split; [done|]. split; [done|].
    destruct cur_line4; simpl; [by right|by left].
Qed.

(** The whole loop: the lines it adds hold, in order, the characters of
    the chunks that are not whitespace, and no other character than
    those of the chunks. *)
Lemma wrap_loop_parts n width chunks lines out :
  textwrap.wrap_loop n width chunks lines = Some out →
  ∃ new,
    out = lines ++ new
    ∧ non_space (concat new) = non_space (concat chunks)
    ∧ ∀ c, c ∈ concat new → c ∈ concat chunks.
Proof.
  revert chunks lines. induction n as [|n IH]; intros chunks lines.
  - destruct chunks; simpl; [|done]. intros [= <-]. exists [].
    by rewrite app_nil_r.
  - destruct chunks as [|top below]; simpl.
    + intros [= <-]. exists []. by rewrite app_nil_r.
    + destruct (textwrap.wrap_pass width top below lines) as [chunks' lines'] eqn:E.
      apply wrap_pass_parts in E as (d1 & line & d2 & Hc & Hd1 & Hd2 & Hl).
      intros (new & -> & Hns & Hin)%IH.
      change (concat (top :: below)) with (top ++ concat below) in Hc.
      rewrite Hc. rewrite !non_space_app, (non_space_blank d1), (non_space_blank d2) by done.
      simpl.
      destruct Hl as [->|[-> ->]].
      * exists (line :: new). rewrite <- app_assoc. split; [done|]. simpl.
        rewrite non_space_app, Hns. split; [done|].
        intros c [?|?%Hin]%elem_of_app; set_solver.
      * exists new. split; [done|]. split; [done|].
        intros c ?%Hin. set_solver.
Qed.

Lemma expandtabs_from_elem col s c :
  c ∈ expandtabs_from 8 col s → c = chr_space ∨ c ∈ s.
Proof.
  revert col. induction s as [|x s IH]; intros col; simpl; [by right|].
  destruct (N.eqb x chr_tab); simpl.
  - intros [Hc|Hc]%elem_of_app.
    + left. apply list_elem_of_In in Hc. by apply repeat_spec in Hc.
    + destruct (IH _ Hc); [by left|right; by constructor].
  - intros [->|Hc]%elem_of_cons; [right; by constructor|].
    destruct (IH _ Hc); [by left|right; by constructor].
Qed.

Lemma munge_whitespace_elem s c :
  c ∈ textwrap._munge_whitespace s →
  c = chr_space ∨ (c ∈ s ∧ in_str c textwrap._whitespace = false).
Proof.
  unfold textwrap._munge_whitespace, textwrap.translate_whitespace, expandtabs.
  intros (x & -> & Hx)%list_elem_of_fmap.
  destruct (in_str x textwrap._whitespace) eqn:E; [by left|].
  apply expandtabs_from_elem in Hx as [->|Hx]; [done|]. by right.
Qed.

Lemma control_space_is_whitespace c :
  in_str c textwrap._whitespace = false → is_control_space c = false.
Proof.
  unfold is_control_space, in_str, textwrap._whitespace. simpl.
  rewrite !orb_false_iff. tauto.
Qed.

Section WrapKeeps.

Variable isalnum : char -> bool.
Variable isdecimal : char -> bool.

Lemma wrap_parts para width out :
  textwrap.wrap isalnum isdecimal para width = Return out →
  non_space (concat out) = non_space para
  ∧ ∀ c, c ∈ concat out → c ∈ textwrap._munge_whitespace para.
Proof.
  unfold textwrap.wrap, textwrap._wrap_chunks.
  destruct (width <=? 0)%Z; [done|].
  destruct (textwrap.wrap_loop _ _ _ _) as [lines|] eqn:E; [|done].
  intros [= <-]. apply wrap_loop_parts in E as (new & -> & Hns & Hin).
  rewrite split_chunks_concat in Hns, Hin. simpl.
  by rewrite Hns, munge_whitespace_non_space.
Qed.

Lemma wrap_paragraph_parts max_chars para group :
  wrap_paragraph isalnum isdecimal max_chars para = Return group →
  non_space (concat group) = non_space para
  ∧ ∀ c, c ∈ concat group → c ∈ textwrap._munge_whitespace para.
Proof.
  unfold wrap_paragraph. destruct (is_empty (strip para)) eqn:Eb.
  - intros [= <-]. simpl. split; [|by intros c ?%elem_of_nil].
    symmetry. apply non_space_blank. by apply strip_empty.
  - destruct (textwrap.wrap isalnum isdecimal para max_chars) as [wrapped| |] eqn:E;
      simpl; [|done..].
    apply wrap_parts in E as [Hns Hin].
    destruct wrapped; intros [= <-]; [|done].
    simpl in *. split; [done|]. by intros c ?%elem_of_nil.
Qed.

Lemma wrap_text_parts text max_chars out :
  wrap_text isalnum isdecimal text max_chars = Return out →
  non_space (concat out) = non_space text
  ∧ ∀ c, c ∈ concat out →
         c = chr_space ∨ (c ∈ text ∧ in_str c textwrap._whitespace = false).
Proof.
  intros (groups & H & ->)%wrap_text_return.
  rewrite <- (split_non_space text).
  assert (Hsub : ∀ c, c ∈ concat (split text chr_newline) → c ∈ text).
  { clear. induction text as [|x s IH]; simpl; [done|].
    destruct (N.eqb x chr_newline); simpl.
    - intros c Hc. right. by apply IH.
    - pose proof (split_nonempty s chr_newline).
      destruct (split s chr_newline) as [|p ps]; [done|]. simpl in *.
      intros c [->|Hc]%elem_of_cons; [by left|]. right. by apply IH. }
  revert Hsub.
  induction H as [|para g paras groups Hg _ IH]; intros Hsub; simpl;
    [split; [done|by intros c ?%elem_of_nil]|].
  apply wrap_paragraph_parts in Hg as [Hns Hin].
  destruct IH as [IH1 IH2].
  { intros c Hc. apply Hsub. simpl. apply elem_of_app. by right. }
  rewrite concat_app, !non_space_app, Hns, IH1. split; [done|].
  intros c [Hc|Hc]%elem_of_app; [|by apply IH2].
  apply Hin, munge_whitespace_elem in Hc as [->|[Hc Hw]]; [by left|right].
  split; [|done]. apply Hsub. simpl. apply elem_of_app. by left.
Qed.

End WrapKeeps.

(** ** Blank paragraphs and blank lines *)




Section BlankLines.

Variable isalnum : char -> bool.
Variable isdecimal : char -> bool.



End BlankLines.



(** X5.  Wrapping loses no visible character: the characters that are
    not whitespace are the same, in the same order, in the text and in
    the lines [wrap_text] returns (a word that is too long is cut, not
    shortened). *)
Theorem X5_wrap_text_keeps_characters (isalnum isdecimal : char -> bool)
    (text : str) (max_chars : Z) (out : list str) :
  wrap_text isalnum isdecimal text max_chars = Return out →
  non_space (concat out) = non_space text.
Proof. by intros [? _]%wrap_text_parts. Qed.

Lemma X5_witness :
  non_space (concat [s2l "ab"; s2l "cd"; s2l "e"; s2l "fg"])
  = non_space (s2l "abcde  fg").
Proof.
  apply (X5_wrap_text_keeps_characters ascii_isalnum ascii_isdecimal
           (s2l "abcde  fg") 2).
  vm_compute. reflexivity.
Defined.

(** X6.  No line that [wrap_text] returns holds a tab, a newline, a
    carriage return, a vertical tab or a form feed: inside a paragraph
    they have all become blanks. *)
Theorem X6_wrap_text_lines_have_no_control_space
    (isalnum isdecimal : char -> bool) (text : str) (max_chars : Z)
    (out : list str) :
  wrap_text isalnum isdecimal text max_chars = Return out →
  Forall (fun line => Forall (fun c => is_control_space c = false) line) out.
Proof.
  intros [_ H]%wrap_text_parts.
  apply Forall_forall. intros line Hl. apply Forall_forall. intros c Hc.
  assert (Hin : c ∈ concat out).
  { apply list_elem_of_In, in_concat. exists line.
    split; by apply list_elem_of_In. }
  apply H in Hin as [->|[_ Hw]]; [done|]. by apply control_space_is_whitespace.
Qed.

Lemma X6_witness :
  Forall (fun line => Forall (fun c => is_control_space c = false) line)
    [s2l "a       b c"; s2l "d"].
Proof.
  apply (X6_wrap_text_lines_have_no_control_space ascii_isalnum ascii_isdecimal
           (s2l "a" ++ [chr_tab] ++ s2l "b" ++ [chr_cr] ++ s2l "c" ++ [chr_newline]
            ++ s2l "d") 75).
  vm_compute. reflexivity.
Defined.

Lemma wrap_text_raise_cases (isalnum isdecimal : char -> bool)
    (text : str) (max_chars : Z) (e : exn) :
  wrap_text isalnum isdecimal text max_chars = Raise e ↔
  e = ValueError
  ∧ (max_chars < 1)%Z
  ∧ Exists (fun para => is_empty (strip para) = false) (split text chr_newline).
Proof.
  split.
  - intros H.
    destruct (decide (1 <= max_chars)%Z) as [Hm|Hm].
    { destruct (wrap_text_positive isalnum isdecimal text max_chars Hm) as [out Ho].
      congruence. }
    destruct (decide (Exists (fun para => is_empty (strip para) = false)
                        (split text chr_newline))) as [Hex|Hall].
    + unfold wrap_text in H.
      rewrite wrap_paragraphs_raise in H by (done || lia).
      injection H as <-. split; [done|]. split; [lia|done].
    + exfalso. apply (not_Exists_Forall _) in Hall.
      unfold wrap_text in H. rewrite wrap_paragraphs_blank in H; [done|].
      eapply Forall_impl; [exact Hall|]. simpl. intros p Hp.
      by destruct (is_empty (strip p)).
  - intros (-> & Hm & Hex). unfold wrap_text.
    apply wrap_paragraphs_raise; [lia|done].
Qed.

(** X7.  [wrap_text] fails in one case only, and only with
    [ValueError]: when [max_chars] is below 1 and some paragraph is not
    blank. *)
Theorem X7_wrap_text_raises_iff (isalnum isdecimal : char -> bool)
    (text : str) (max_chars : Z) (e : exn) :
  wrap_text isalnum isdecimal text max_chars = Raise e ↔
  e = ValueError
  ∧ (max_chars < 1)%Z
  ∧ Exists (fun para => is_empty (strip para) = false) (split text chr_newline).
Proof. apply wrap_text_raise_cases. Qed.

Lemma translate_char_id c :
  is_control_space c = false →
  (if in_str c textwrap._whitespace then chr_space else c) = c.
Proof.
  intros Hc. destruct (in_str c textwrap._whitespace) eqn:E; [|done].
  unfold is_control_space, in_str, textwrap._whitespace in *. simpl in *.
  rewrite !orb_false_r in *. rewrite !orb_false_iff in Hc.
  destruct Hc as (H1 & H2 & H3 & H4 & H5).
  rewrite H1, H2, H3, H4, H5 in E. simpl in E. symmetry. by apply N.eqb_eq in E.
Qed.

Lemma munge_whitespace_id s :
  Forall (fun c => is_control_space c = false) s →
  textwrap._munge_whitespace s = s.
Proof.
  intros H. unfold textwrap._munge_whitespace, expandtabs.
  assert (He : ∀ col, expandtabs_from 8 col s = s).
  { induction H as [|c s Hc _ IH]; intros col; simpl; [done|].
    destruct (N.eqb_spec c chr_tab) as [->|_]; [done|]. by rewrite IH. }
  rewrite He. unfold textwrap.translate_whitespace.
  clear He. induction H as [|c s Hc _ IH]; cbn [map]; [done|].
  by rewrite IH, translate_char_id.
Qed.

Lemma split_no_sep s sep : Forall (fun x => x ≠ sep) s → split s sep = [s].
Proof.
  intros H. pose proof (split_app_no_sep s [] sep H) as E.
  rewrite app_nil_r in E. rewrite E. simpl. by rewrite app_nil_r.
Qed.

Lemma fill_line_all width chunks cur_line cur_len :
  (cur_len + textwrap.sum_len chunks <= width)%Z →
  textwrap.fill_line width chunks cur_line cur_len
  = ([], cur_line ++ chunks, (cur_len + textwrap.sum_len chunks)%Z).
Proof.
  revert cur_line cur_len. induction chunks as [|c chunks IH];
    intros cur_line cur_len H.
  - simpl. by rewrite app_nil_r, Z.add_0_r.
  - change (textwrap.sum_len (c :: chunks))
      with (len c + textwrap.sum_len chunks)%Z in *.
    pose proof (sum_len_nonneg chunks). cbn [textwrap.fill_line].
    replace (cur_len + len c <=? width)%Z with true by lia.
    rewrite IH by lia. rewrite <- app_assoc. simpl. f_equal. lia.
Qed.

(** Chunks that fit together, the last of them not blank, make one
    line. *)
Lemma wrap_loop_fits n width chunks c :
  chunks ≠ [] → (textwrap.sum_len chunks <= width)%Z →
  last chunks = Some c → textwrap.is_blank c = false →
  textwrap.wrap_loop (S n) width chunks [] = Some [join_empty chunks].
Proof.
  intros Hne Hsum Hlast Hb.
  destruct chunks as [|top below]; [done|]. simpl.
  unfold textwrap.wrap_pass. rewrite andb_false_r.
  rewrite fill_line_all by (simpl in *; lia). simpl app.
  rewrite Hlast, Hb. simpl. by destruct n.
Qed.

Lemma control_space_isspace c : py_isspace c = false → is_control_space c = false.
Proof.
  intros H. destruct (is_control_space c) eqn:E; [|done].
  unfold is_control_space, in_str in E. simpl in E.
  rewrite !orb_true_iff, !N.eqb_eq in E.
  destruct E as [->|[->|[->|[->|[->|E]]]]]; by try discriminate.
Qed.

(** X8.  A text of one line that fits the limit, holds no tab or other
    control whitespace and does not end in whitespace is returned as the
    one line it is: blanks at its start and runs of blanks inside it
    are kept. *)
Theorem X8_fitting_line_unchanged (isalnum isdecimal : char -> bool)
    (body : str) (c : char) (max_chars : Z) :
  py_isspace c = false →
  Forall (fun x => is_control_space x = false) body →
  (len (body ++ [c]) <= Z.min max_chars 75)%Z →
  wrap_text isalnum isdecimal (body ++ [c]) max_chars = Return [body ++ [c]].
Proof.
  intros Hc Hbody Hlen. set (text := body ++ [c]) in *.
  assert (Hctl : Forall (fun x => is_control_space x = false) text).
  { apply Forall_app. split; [done|]. constructor; [|done].
    by apply control_space_isspace. }
  assert (Hnb : is_empty (strip text) = false).
  { destruct (is_empty (strip text)) eqn:E; [|done].
    apply strip_empty, Forall_app in E as [_ E]. inversion E; congruence. }
  unfold wrap_text. rewrite split_no_sep.
  2:{ eapply Forall_impl; [exact Hctl|]. by intros x Hx ->. }
  simpl. unfold wrap_paragraph. rewrite Hnb.
  unfold textwrap.wrap, textwrap._wrap_chunks.
  assert (Hpos : (1 <= len text)%Z)
    by (subst text; unfold len; rewrite length_app; simpl; lia).
  replace (Z.min max_chars 75 <=? 0)%Z with false by lia.
  set (chunks := textwrap._split_chunks isalnum isdecimal text).
  assert (Hcat : concat chunks = text).
  { subst chunks. by rewrite split_chunks_concat, munge_whitespace_id. }
  assert (Hsum : textwrap.sum_len chunks = len text)
    by (by rewrite <- len_join_empty; unfold join_empty; rewrite Hcat).
  pose proof (split_chunks_nonempty isalnum isdecimal text) as Hne. fold chunks in Hne.
  destruct (last chunks) as [ch|] eqn:El.
  2:{ apply last_None in El. rewrite El in Hcat. simpl in Hcat.
      subst text. by destruct body. }
  assert (Hch : textwrap.is_blank ch = false).
  { destruct (textwrap.is_blank ch) eqn:E; [|done]. exfalso.
    apply is_blank_spec in E.
    pose proof El as El'. apply last_Some in El' as [init Hi].
    assert (Hch1 : (1 <= len ch)%Z).
    { rewrite Forall_forall in Hne. apply Hne. rewrite Hi.
      apply elem_of_app. right. by constructor. }
    destruct (last ch) as [x|] eqn:Ex.
    2:{ apply last_None in Ex. subst ch. unfold len in Hch1. simpl in Hch1. lia. }
    apply last_Some in Ex as [ch' ->].
    rewrite Hi, concat_app in Hcat. simpl in Hcat. rewrite app_nil_r in Hcat.
    subst text. rewrite app_assoc in Hcat. apply app_inj_tail in Hcat as [_ ->].
    apply Forall_app in E as [_ E]. inversion E; congruence. }
  rewrite (wrap_loop_fits _ _ chunks ch); [|by intros ->|lia|done|done].
  simpl. unfold join_empty. by rewrite Hcat.
Qed.

Lemma X8_witness :
  wrap_text ascii_isalnum ascii_isdecimal (s2l "  two   words" ++ [33%N]) 20
  = Return [s2l "  two   words" ++ [33%N]].
Proof.
  apply (X8_fitting_line_unchanged ascii_isalnum ascii_isdecimal
           (s2l "  two   words") 33%N 20).
  - reflexivity.
  - apply (bool_decide_unpack _). vm_compute. exact I.
  - vm_compute. discriminate.
Defined.

(** ** [wrap_text_to_width] and [estimate_text_width] *)

Lemma wrap_text_lines_limit isalnum isdecimal text max_chars out :
  (1 <= max_chars)%Z →
  wrap_text isalnum isdecimal text max_chars = Return out →
  Forall (fun l => (len l <= Z.min max_chars 75)%Z) out.
Proof.
  intros Hm (groups & H & ->)%wrap_text_return.
  induction H as [|para g paras groups Hg _ IH]; simpl; [done|].
  apply Forall_app. split; [|done].
  destruct (wrap_paragraph_positive isalnum isdecimal (Z.min max_chars 75) para)
    as (new & Hn & _ & Hl); [lia|].
  rewrite Hn in Hg. by injection Hg as <-.
Qed.

Lemma planMaxChars_range aw : (1 <= planMaxChars aw 0 0 <= 75)%Z.
Proof. unfold planMaxChars. lia. Qed.

(** X9.  With the default constants [wrap_text_to_width] returns for
    every available width below [2 ^ 1023] in magnitude, zero and
    negative widths included (margins wider than the page); its lines
    respect the limit derived from the width, and below a width of 30
    every line holds at most one character. *)
Theorem X9_wrap_text_to_width_returns (isalnum isdecimal : char -> bool)
    (text : str) (aw : Z) :
  (Z.abs aw < 2 ^ 1023)%Z →
  ∃ out,
    wrap_text_to_width isalnum isdecimal text aw
      default_scale_factor default_avg_char_width = Return out
    ∧ out ≠ []
    ∧ Forall (fun l => (len l <= planMaxChars aw 0 0)%Z) out
    ∧ ((aw < 30)%Z → Forall (fun l => length l ≤ 1) out).
Proof.
  intros Ha. unfold wrap_text_to_width.
  rewrite width_max_chars_below_2_1023 by done. simpl.
  pose proof (planMaxChars_range aw) as Hr.
  destruct (wrap_text_positive isalnum isdecimal text (planMaxChars aw 0 0))
    as [out Ho]; [lia|].
  exists out. split; [done|].
  split; [by apply wrap_text_lines in Ho as [? _]|].
  pose proof (wrap_text_lines_limit _ _ _ _ _ (proj1 Hr) Ho) as Hl.
  split.
  - eapply Forall_impl; [exact Hl|]. simpl. lia.
  - intros Hs.
    assert (Hone : planMaxChars aw 0 0 = 1%Z).
    { unfold planMaxChars.
      assert (Z.max 1 (aw - 0 - 0) / 15 < 2)%Z
        by (apply Z.div_lt_upper_bound; lia).
      lia. }
    eapply Forall_impl; [exact Hl|]. simpl. unfold len. lia.
Qed.

Lemma X9_witness :
  ∃ out,
    wrap_text_to_width ascii_isalnum ascii_isdecimal (s2l "ab") (-100)
      default_scale_factor default_avg_char_width = Return out
    ∧ out ≠ []
    ∧ Forall (fun l => (len l <= planMaxChars (-100) 0 0)%Z) out
    ∧ ((-100 < 30)%Z → Forall (fun l => length l ≤ 1) out).
Proof.
  apply (X9_wrap_text_to_width_returns ascii_isalnum ascii_isdecimal (s2l "ab") (-100)).
  reflexivity.
Defined.

(** The limit is derived for every available width that a float can
    hold; for the other widths, of magnitude [2 ^ 1023] or more, the
    conversion raises [OverflowError]. *)
Lemma width_max_chars_cases aw :
  width_max_chars aw default_scale_factor default_avg_char_width
  = Return (planMaxChars aw 0 0)
  ∨ (width_max_chars aw default_scale_factor default_avg_char_width
     = Raise OverflowError
     ∧ (2 ^ 1023 <= Z.abs aw)%Z).
Proof.
  destruct (decide (Z.abs aw < 2 ^ 1023)%Z) as [Ha|Ha].
  { left. by apply width_max_chars_below_2_1023. }
  destruct (pyfloat.of_int aw) as [x|e|] eqn:Hx.
  - left. by eapply width_max_chars_spec.
  - right. rewrite width_max_chars_default, Hx. simpl.
    assert (e = OverflowError) as ->.
    { unfold pyfloat.of_int in Hx.
      destruct (binary_normalize _ _ _ _ _); congruence. }
    split; [done|lia].
  - exfalso. unfold pyfloat.of_int in Hx.
    destruct (binary_normalize _ _ _ _ _); congruence.
Qed.

(** X10.  Whenever [wrap_text_to_width] derives a limit from the
    available width (with the default constants), the limit is between 1
    and 75, it never decreases when the page gets wider, and it is 75
    exactly from an available width of 1125 on.  The limit is derived
    for every width below [2 ^ 1023] in magnitude; for any other width
    the only other outcome is [OverflowError], raised by the conversion
    of the width to a float. *)
Theorem X10_width_limit_monotone (aw1 aw2 : Z) :
  (aw1 <= aw2)%Z →
  (∀ n1 n2,
     width_max_chars aw1 default_scale_factor default_avg_char_width = Return n1 →
     width_max_chars aw2 default_scale_factor default_avg_char_width = Return n2 →
     (1 <= n1 <= n2)%Z ∧ (n2 <= 75)%Z ∧ (n1 = 75%Z ↔ (1125 <= aw1)%Z))
  ∧ ((Z.abs aw1 < 2 ^ 1023)%Z → (Z.abs aw2 < 2 ^ 1023)%Z →
     ∃ n1 n2,
       width_max_chars aw1 default_scale_factor default_avg_char_width = Return n1
       ∧ width_max_chars aw2 default_scale_factor default_avg_char_width = Return n2)
  ∧ (∀ aw, (∃ n, width_max_chars aw default_scale_factor default_avg_char_width
                 = Return n)
           ∨ (width_max_chars aw default_scale_factor default_avg_char_width
              = Raise OverflowError
              ∧ (2 ^ 1023 <= Z.abs aw)%Z)).
Proof.
  intros Hle. split_and!.
  - intros n1 n2 H1 H2.
    destruct (width_max_chars_cases aw1) as [E1|[E1 _]]; [|congruence].
    destruct (width_max_chars_cases aw2) as [E2|[E2 _]]; [|congruence].
    rewrite E1 in H1. rewrite E2 in H2.
    injection H1 as <-. injection H2 as <-.
    unfold planMaxChars.
    assert (Hd : (Z.max 1 (aw1 - 0 - 0) / 15 <= Z.max 1 (aw2 - 0 - 0) / 15)%Z)
      by (apply Z.div_le_mono; lia).
    split; [lia|]. split; [lia|].
    split.
    + intros Hn.
      destruct (decide (1125 <= aw1)%Z); [done|].
      assert (Z.max 1 (aw1 - 0 - 0) / 15 < 75)%Z
        by (apply Z.div_lt_upper_bound; lia).
      lia.
    + intros Hw.
      assert (75 <= Z.max 1 (aw1 - 0 - 0) / 15)%Z
        by (apply Z.div_le_lower_bound; lia).
      lia.
  - intros H1 H2. exists (planMaxChars aw1 0 0), (planMaxChars aw2 0 0).
    by rewrite !width_max_chars_below_2_1023.
  - intros aw. destruct (width_max_chars_cases aw) as [E|E]; [left|by right].
    by eexists.
Qed.

Lemma X10_witness :
  width_max_chars 900 default_scale_factor default_avg_char_width = Return 60%Z
  ∧ width_max_chars 1125 default_scale_factor default_avg_char_width = Return 75%Z
  ∧ (1 <= 60 <= 75)%Z ∧ (75 <= 75)%Z ∧ (60%Z = 75%Z ↔ (1125 <= 900)%Z).
Proof.
  split; [vm_compute; reflexivity|]. split; [vm_compute; reflexivity|].
  apply (proj1 (X10_width_limit_monotone 900 1125 ltac:(vm_compute; discriminate)));
    vm_compute; reflexivity.
Defined.

Lemma estimate_small :
  forallb estimate_is_exact (map Z.of_nat (seq 0 76)) = true.
Proof. vm_compute. reflexivity. Qed.

(** The estimate for a line of at most 75 characters is exact: the float
    is the number [15 * len text], with no rounding. *)
Lemma estimate_text_width_exact text :
  (len text <= 75)%Z →
  ∃ x, estimate_text_width text default_scale_factor default_avg_char_width = Return x
       ∧ pyfloat.eq_int x (15 * len text) = true
       ∧ pyfloat.to_int x = Return (15 * len text)%Z.
Proof.
  intros H. pose proof estimate_small as Hs. rewrite forallb_forall in Hs.
  assert (Hin : In (len text) (map Z.of_nat (seq 0 76))).
  { apply in_map_iff. exists (length text).
    split; [done|]. apply in_seq. unfold len in H. lia. }
  specialize (Hs _ Hin). clear Hin. unfold estimate_is_exact in Hs.
  unfold estimate_text_width.
  destruct (pyfloat.of_int (len text * default_avg_char_width)) as [k| |];
    simpl in *; [|done..].
  exists (pyfloat.mul k default_scale_factor). split; [done|].
  apply andb_true_iff in Hs as [Heq Hs]. split; [done|].
  destruct (pyfloat.to_int _) as [w| |]; [|done..].
  f_equal. by apply Z.eqb_eq.
Qed.

(** A float that equals an integer is at most every integer above it. *)
Lemma eq_int_le_int x n k :
  pyfloat.eq_int x n = true → (n <= k)%Z → pyfloat.le_int x k = true.
Proof.
  destruct x as [s|s| |s m e]; unfold pyfloat.eq_int, pyfloat.le_int; try done.
  - intros <-%Z.eqb_eq Hk. by apply Z.leb_le.
  - intros ->%Z.eqb_eq Hk. apply Z.leb_le.
    apply Z.mul_le_mono_nonneg_r; [|done].
    apply Z.pow_nonneg. lia.
Qed.

(** X11.  The two estimates agree: on an available width of at least 15
    (room for one character), every line that [wrap_text_to_width]
    returns has an estimated width, by [estimate_text_width] with the
    same defaults, of exactly 15 per character: the float returned
    compares equal to the integer [15 * len l], so nothing is lost to
    rounding and [int] of it discards nothing.  That estimate is at most
    the available width: the comparison [estimate <= available_width]
    holds. *)
Theorem X11_lines_fit_by_estimate (isalnum isdecimal : char -> bool)
    (text : str) (aw : Z) (out : list str) :
  (15 <= aw)%Z →
  wrap_text_to_width isalnum isdecimal text aw
    default_scale_factor default_avg_char_width = Return out →
  Forall (fun l =>
            ∃ x, estimate_text_width l default_scale_factor default_avg_char_width
                 = Return x
                 ∧ pyfloat.eq_int x (15 * len l) = true
                 ∧ pyfloat.le_int x aw = true
                 ∧ pyfloat.to_int x = Return (15 * len l)%Z
                 ∧ (15 * len l <= aw)%Z) out.
Proof.
  intros Ha. unfold wrap_text_to_width.
  destruct (pyfloat.of_int aw) as [x| |] eqn:Hx.
  2,3: by rewrite width_max_chars_default, Hx.
  rewrite (width_max_chars_spec aw x Hx). simpl.
  pose proof (planMaxChars_range aw) as Hr.
  intros Ho. pose proof (wrap_text_lines_limit _ _ _ _ _ (proj1 Hr) Ho) as Hl.
  eapply Forall_impl; [exact Hl|]. simpl. intros l Hlen.
  destruct (estimate_text_width_exact l) as (y & Hy & He & Hi); [lia|].
  assert (Hfit : (15 * len l <= aw)%Z).
  { assert (planMaxChars aw 0 0 <= aw / 15)%Z.
    { unfold planMaxChars. rewrite (Z.max_r 1 (aw - 0 - 0)) by lia.
      replace (aw - 0 - 0)%Z with aw by lia.
      assert (1 <= aw / 15)%Z by (apply Z.div_le_lower_bound; lia). lia. }
    pose proof (Z.mul_div_le aw 15 ltac:(lia)). lia. }
  exists y. split_and!; [done..| |done|done].
  by eapply eq_int_le_int.
Qed.

Lemma X11_witness :
  Forall (fun l =>
            ∃ x, estimate_text_width l default_scale_factor default_avg_char_width
                 = Return x
                 ∧ pyfloat.eq_int x (15 * len l) = true
                 ∧ pyfloat.le_int x 45 = true
                 ∧ pyfloat.to_int x = Return (15 * len l)%Z
                 ∧ (15 * len l <= 45)%Z) [s2l "ab"; s2l "cde"].
Proof.
  apply (X11_lines_fit_by_estimate ascii_isalnum ascii_isdecimal (s2l "ab cde") 45).
  - vm_compute. discriminate.
  - vm_compute. reflexivity.
Defined.

(** ** [interactive_mode] *)

Lemma split_join_newline lines :
  lines ≠ [] → Forall (Forall (fun c => c ≠ chr_newline)) lines →
  split (join_newline lines) chr_newline = lines.
Proof.
  intros Hne H. induction H as [|l ls Hl Hls IH]; [done|].
  destruct ls as [|l2 ls].
  - simpl. by apply split_no_sep.
  - change (join_newline (l :: l2 :: ls))
      with (l ++ chr_newline :: join_newline (l2 :: ls)).
    rewrite split_app_no_sep by done.
    change (split (chr_newline :: join_newline (l2 :: ls)) chr_newline)
      with ([] :: split (join_newline (l2 :: ls)) chr_newline).
    rewrite IH by done. by rewrite app_nil_r.
Qed.

(** Without two empty lines in a row the loop collects every line. *)
Lemma interactive_loop_all inputs lines empty_count :
  (empty_count = 0%Z ∨ empty_count = 1%Z ∧ head inputs ≠ Some []) →
  (∀ i, inputs !! i = Some [] → inputs !! S i ≠ Some []) →
  interactive_loop inputs lines empty_count = lines ++ inputs.
Proof.
  revert lines empty_count.
  induction inputs as [|line inputs IH]; intros lines ec Hec Hno; simpl.
  - by rewrite app_nil_r.
  - destruct line as [|c line]; simpl.
    + destruct Hec as [->|[_ Hh]]; [|done]. simpl.
      rewrite IH, <- app_assoc; [done| |].
      * right. split; [done|]. destruct inputs as [|l2 ?]; [done|]. simpl.
        intros [= ->]. by apply (Hno 0).
      * intros i Hi. apply (Hno (S i)). done.
    + rewrite IH, <- app_assoc; [done|by left|].
      intros i Hi. apply (Hno (S i)). done.
Qed.

(** X12.  When the user ends the input (end of file) without having
    typed two empty lines in a row, the text [interactive_mode] returns
    splits back, at its newlines, into exactly the lines typed. *)
Theorem X12_interactive_mode_round_trip (inputs : list str) :
  inputs ≠ [] →
  Forall (Forall (fun c => c ≠ chr_newline)) inputs →
  (∀ i, inputs !! i = Some [] → inputs !! S i ≠ Some []) →
  split (interactive_mode inputs) chr_newline = inputs.
Proof.
  intros Hne Hnl Hno. unfold interactive_mode.
  rewrite interactive_loop_all by (by left || done). simpl.
  by apply split_join_newline.
Qed.

Lemma X12_witness :
  split (interactive_mode [s2l "Dear Mom,"; []; s2l "I love you!"]) chr_newline
  = [s2l "Dear Mom,"; []; s2l "I love you!"].
Proof.
  apply X12_interactive_mode_round_trip.
  - discriminate.
  - apply (bool_decide_unpack _). vm_compute. exact I.
  - intros [|[|[|i]]]; vm_compute; congruence.
Defined.

Lemma interactive_loop_app pre rest lines empty_count :
  (empty_count = 0%Z ∨ empty_count = 1%Z ∧ head pre ≠ Some []) →
  (∀ i, pre !! i = Some [] → pre !! S i ≠ Some []) →
  pre ≠ [] → last pre ≠ Some [] →
  interactive_loop (pre ++ rest) lines empty_count
  = interactive_loop rest (lines ++ pre) 0.
Proof.
  revert lines empty_count.
  induction pre as [|line pre IH]; intros lines ec Hec Hno Hne Hlast; [done|].
  destruct (decide (pre = [])) as [->|Hpre].
  - simpl in *. destruct line; [done|]. done.
  - assert (Hlast' : last pre ≠ Some []).
    { destruct pre; [done|]. exact Hlast. }
    simpl. destruct line as [|c line]; simpl.
    + destruct Hec as [->|[_ Hh]]; [|done]. simpl.
      rewrite IH, <- app_assoc; [done| |by intros i Hi; apply (Hno (S i))|done..].
      right. split; [done|]. destruct pre as [|l2 ?]; [done|]. simpl.
      intros [= ->]. by apply (Hno 0).
    + rewrite IH, <- app_assoc;
        [done|by left|by intros i Hi; apply (Hno (S i))|done..].
Qed.

(** The same from the start of the loop, where [pre] may hold no line. *)
Lemma interactive_loop_app_start pre rest lines :
  (∀ i, pre !! i = Some [] → pre !! S i ≠ Some []) →
  last pre ≠ Some [] →
  interactive_loop (pre ++ rest) lines 0
  = interactive_loop rest (lines ++ pre) 0.
Proof.
  intros Hno Hlast. destruct (decide (pre = [])) as [->|Hne].
  - simpl. by rewrite app_nil_r.
  - apply interactive_loop_app; [by left|done..].
Qed.

Lemma join_newline_snoc_empty (pre : list str) :
  join_newline (pre ++ [[]])
  = if is_empty pre then [] else join_newline pre ++ [chr_newline].
Proof.
  induction pre as [|l pre IH]; [done|].
  destruct pre as [|l2 pre]; [done|].
  change (join_newline ((l :: l2 :: pre) ++ [[]]))
    with (l ++ chr_newline :: join_newline ((l2 :: pre) ++ [[]])).
  rewrite IH. simpl. by rewrite <- app_assoc.
Qed.

(** X13.  The first two empty lines in a row end the input.  Let [pre]
    be the lines typed before them: [pre] has no two empty lines in a row
    and does not end with an empty line, and it may be empty.  What is
    typed after the two empty lines is not read; the lines collected are
    [pre] and the first of the two empty lines, the second is not kept.
    So the text returned is the lines of [pre] joined by newlines and
    followed by one newline when [pre] is not empty, and the empty string
    when the two empty lines are the first lines typed (the one line
    collected is empty, and joining it gives no newline). *)
Theorem X13_interactive_mode_stops (pre post : list str) :
  (∀ i, pre !! i = Some [] → pre !! S i ≠ Some []) →
  last pre ≠ Some [] →
  interactive_loop (pre ++ [] :: [] :: post) [] 0 = pre ++ [[]]
  ∧ interactive_mode (pre ++ [] :: [] :: post)
    = (if is_empty pre then [] else join_newline pre ++ [chr_newline])
  ∧ (pre ≠ [] →
     interactive_mode (pre ++ [] :: [] :: post)
     = join_newline pre ++ [chr_newline])
  ∧ (pre = [] → interactive_mode (pre ++ [] :: [] :: post) = []).
Proof.
  intros Hno Hlast.
  assert (Hloop : interactive_loop (pre ++ [] :: [] :: post) [] 0 = pre ++ [[]]).
  { by rewrite interactive_loop_app_start. }
  assert (Hmode : interactive_mode (pre ++ [] :: [] :: post)
                  = if is_empty pre then [] else join_newline pre ++ [chr_newline]).
  { unfold interactive_mode. rewrite Hloop. apply join_newline_snoc_empty. }
  split_and!; [done..| |].
  - intros Hne. rewrite Hmode. by destruct pre.
  - intros ->. by rewrite Hmode.
Qed.

Lemma X13_witness :
  (interactive_mode ([s2l "one"; s2l "two"] ++ [] :: [] :: [s2l "three"])
   = join_newline [s2l "one"; s2l "two"] ++ [chr_newline])
  ∧ interactive_mode ([] ++ [] :: [] :: [s2l "three"]) = [].
Proof.
  split.
  - apply (X13_interactive_mode_stops [s2l "one"; s2l "two"] [s2l "three"]).
    + intros [|[|i]]; vm_compute; congruence.
    + vm_compute. discriminate.
    + discriminate.
  - apply (X13_interactive_mode_stops [] [s2l "three"]).
    + intros i. vm_compute. discriminate.
    + vm_compute. discriminate.
    + reflexivity.
Defined.

Lemma interactive_loop_blank inputs lines empty_count :
  Forall (Forall (fun c => py_isspace c = true)) inputs →
  Forall (Forall (fun c => py_isspace c = true)) lines →
  Forall (Forall (fun c => py_isspace c = true))
    (interactive_loop inputs lines empty_count).
Proof.
  intros H. revert lines empty_count.
  induction H as [|line inputs Hl _ IH]; intros lines ec Hlines; simpl; [done|].
  destruct (is_empty line).
  - destruct (2 <=? ec + 1)%Z; [done|]. apply IH.
    apply Forall_app. by split; [|repeat constructor].
  - apply IH. apply Forall_app. by split; [|repeat constructor].
Qed.

Lemma join_newline_blank lines :
  Forall (Forall (fun c => py_isspace c = true)) lines →
  Forall (fun c => py_isspace c = true) (join_newline lines).
Proof.
  induction 1 as [|l ls Hl _ IH]; [done|].
  destruct ls as [|l2 ls]; [done|].
  change (join_newline (l :: l2 :: ls))
    with (l ++ chr_newline :: join_newline (l2 :: ls)).
  apply Forall_app. split; [done|]. by constructor.
Qed.

(** X14.  With no file and no text on the command line (an empty text
    argument counts as none) the text is read interactively; if the user
    types nothing but whitespace, or nothing at all, the run ends with
    [Error: No text provided] and nothing is rendered. *)
Theorem X14_run_interactive_blank (alphabet : list char)
    (isalnum isdecimal : char -> bool) (read_file : str -> option str)
    (stdin : list str) (cli : Cli) :
  cli_list_styles cli = false →
  cli_file cli = None ∨ cli_file cli = Some [] →
  cli_text cli = None ∨ cli_text cli = Some [] →
  Forall (Forall (fun c => py_isspace c = true)) stdin →
  run alphabet isalnum isdecimal read_file stdin cli = Ran (Exit1 No_text_provided).
Proof.
  intros Hs Hf Ht Hin. unfold run. rewrite Hs.
  replace (given (cli_file cli)) with false by (by destruct Hf as [-> | ->]).
  replace (given (cli_text cli)) with false by (by destruct Ht as [-> | ->]).
  unfold main.
  assert (Hb : is_empty (strip (interactive_mode stdin)) = true).
  { apply strip_empty, join_newline_blank. by apply interactive_loop_blank. }
  by rewrite Hb.
Qed.

Lemma X14_witness :
  run sample_alphabet ascii_isalnum ascii_isdecimal (fun _ => None)
    [s2l "  "; []; []]
    {| cli_list_styles := false; cli_file := None; cli_text := Some [];
       cli_args := default_args |}
  = Ran (Exit1 No_text_provided).
Proof.
  apply X14_run_interactive_blank.
  - reflexivity.
  - by left.
  - by right.
  - apply (bool_decide_unpack _). vm_compute. exact I.
Defined.

(** ** What [main] hands to the renderer *)

(** X15.  Whenever [main] calls [hand.write], the replacement characters
    being in the alphabet, there is at least one line, no line has more
    than 75 characters, every character of every line is in the
    alphabet, each per-line list has one entry per line, and the page
    height is the line height times the number of lines plus one. *)
Theorem X15_main_call_is_well_formed (alphabet : list char)
    (isalnum isdecimal : char -> bool) (args : Args) (text : str)
    (svg_height : Z) (call : WriteCall) :
  Forall (fun c => c ∈ alphabet) replacement_chars →
  main alphabet isalnum isdecimal args text = Write_svg svg_height call →
  lines call ≠ []
  ∧ Forall (fun l => length l ≤ 75 ∧ Forall (fun c => c ∈ alphabet) l) (lines call)
  ∧ length (biases call) = length (lines call)
  ∧ length (styles call) = length (lines call)
  ∧ length (stroke_colors call) = length (lines call)
  ∧ length (stroke_widths call) = length (lines call)
  ∧ svg_height = (arg_line_height args * (len (lines call) + 1))%Z.
Proof.
  intros Hrep. unfold main.
  destruct (is_empty (strip text)); [done|].
  destruct (main_lines alphabet isalnum isdecimal args text) as [out| |] eqn:E;
    [|done..].
  destruct (is_empty out) eqn:Ee; [done|].
  intros [= <- <-]. simpl. rewrite !repeat_length.
  split; [by destruct out|].
  split; [|done].
  assert (Hw : ∃ m, wrap_text isalnum isdecimal (validate_text alphabet text) m
                    = Return out).
  { unfold main_lines, wrap_text_to_width in E. destruct (negb _); [by eexists|].
    destruct (width_max_chars _ _ _) as [m| |]; simpl in E; [by eexists|done..]. }
  destruct Hw as [m Hw].
  pose proof (wrap_text_lines _ _ _ _ _ Hw) as [_ Hlen].
  pose proof (wrap_text_parts _ _ _ _ _ Hw) as [_ Hin].
  pose proof (validate_text_output alphabet Hrep text) as Hval.
  rewrite Forall_forall in Hval. rewrite Forall_forall in Hlen.
  rewrite Forall_forall in Hrep.
  apply Forall_forall. intros l Hl. split.
  - specialize (Hlen l Hl). unfold len in Hlen. simpl in Hlen. lia.
  - apply Forall_forall. intros c Hc.
    assert (Hcat : c ∈ concat out).
    { apply list_elem_of_In, in_concat. exists l. split; by apply list_elem_of_In. }
    apply Hin in Hcat as [->|[Hv Hws]].
    + apply Hrep. unfold replacement_chars. by constructor.
    + destruct (Hval c Hv) as [?| ->]; [done|]. done.
Qed.

Lemma X15_witness :
  ∃ svg_height call,
    main sample_alphabet ascii_isalnum ascii_isdecimal default_args
      (s2l "Hello" ++ [chr_tab; chr_ellipsis]) = Write_svg svg_height call
    ∧ lines call ≠ []
    ∧ Forall (fun l => length l ≤ 75 ∧ Forall (fun c => c ∈ sample_alphabet) l)
        (lines call).
Proof.
  eexists _, _.
  assert (H : Forall (fun c => c ∈ sample_alphabet) replacement_chars)
    by (apply (bool_decide_unpack _); vm_compute; exact I).
  assert (E : main sample_alphabet ascii_isalnum ascii_isdecimal default_args
                (s2l "Hello" ++ [chr_tab; chr_ellipsis])
              = Write_svg 120
                  {| filename := arg_output default_args;
                     lines := [s2l "Hello ..."];
                     biases := [arg_bias default_args];
                     styles := [3%Z];
                     stroke_colors := [arg_color default_args];
                     stroke_widths := [arg_width default_args];
                     left_margin := 50; right_margin := 50;
                     line_height := 60; view_width := 1000 |})
    by (vm_compute; reflexivity).
  split; [exact E|].
  pose proof (X15_main_call_is_well_formed sample_alphabet ascii_isalnum
                ascii_isdecimal default_args _ _ _ H E) as (H1 & H2 & _).
  split; [exact H1|exact H2].
Defined.

(** X16.  [main] ends with [Error: No text provided] exactly when the
    text holds nothing but whitespace (the empty text included). *)
Theorem X16_main_no_text_iff (alphabet : list char)
    (isalnum isdecimal : char -> bool) (args : Args) (text : str) :
  main alphabet isalnum isdecimal args text = Exit1 No_text_provided ↔
  Forall (fun c => py_isspace c = true) text.
Proof.
  rewrite <- strip_empty. unfold main.
  destruct (is_empty (strip text)); [done|].
  split; [|done].
  destruct (main_lines alphabet isalnum isdecimal args text) as [out| |];
    [|done..].
  by destruct (is_empty out).
Qed.

Lemma width_max_chars_raise aw e :
  width_max_chars aw default_scale_factor default_avg_char_width = Raise e ↔
  e = OverflowError ∧ pyfloat.of_int aw = Raise OverflowError.
Proof.
  destruct (pyfloat.of_int aw) as [x| |] eqn:Hx.
  - rewrite (width_max_chars_spec aw x Hx). by split; [|intros [_ ?]].
  - rewrite width_max_chars_default, Hx. simpl.
    assert (e0 = OverflowError) as ->.
    { unfold pyfloat.of_int in Hx.
      destruct (binary_normalize _ _ _ _ _); congruence. }
    split; [by intros [= <-]|by intros [-> _]].
  - exfalso. unfold pyfloat.of_int in Hx.
    destruct (binary_normalize _ _ _ _ _); congruence.
Qed.

(** X17.  [main] ends with an uncaught exception in two cases only:
    with [ValueError] when [--max-chars] is below 1 and the filtered text
    has a paragraph that is not blank, and with [OverflowError] when
    [--max-chars] is 75 and the available width is too large for a
    float, which needs a magnitude of at least [2 ^ 1023]. *)
Theorem X17_main_uncaught_iff (alphabet : list char)
    (isalnum isdecimal : char -> bool) (args : Args) (text : str) (e : exn) :
  (main alphabet isalnum isdecimal args text = Uncaught e ↔
   is_empty (strip text) = false
   ∧ (arg_max_chars args ≠ 75%Z ∧ e = ValueError ∧ (arg_max_chars args < 1)%Z
      ∧ Exists (fun para => is_empty (strip para) = false)
          (split (validate_text alphabet text) chr_newline)
      ∨ arg_max_chars args = 75%Z ∧ e = OverflowError
        ∧ pyfloat.of_int
            (arg_view_width args - arg_left_margin args - arg_right_margin args)
          = Raise OverflowError))
  ∧ (pyfloat.of_int
       (arg_view_width args - arg_left_margin args - arg_right_margin args)
     = Raise OverflowError →
     (2 ^ 1023 <= Z.abs
        (arg_view_width args - arg_left_margin args - arg_right_margin args))%Z).
Proof.
  split.
  - unfold main. destruct (is_empty (strip text)).
    { split; [done|]. by intros [? _]. }
    assert (Hl : main_lines alphabet isalnum isdecimal args text = Raise e ↔
      (arg_max_chars args ≠ 75%Z ∧ e = ValueError ∧ (arg_max_chars args < 1)%Z
       ∧ Exists (fun para => is_empty (strip para) = false)
           (split (validate_text alphabet text) chr_newline)
       ∨ arg_max_chars args = 75%Z ∧ e = OverflowError
         ∧ pyfloat.of_int
             (arg_view_width args - arg_left_margin args - arg_right_margin args)
           = Raise OverflowError)).
    { unfold main_lines.
      destruct (Z.eqb_spec (arg_max_chars args) 75) as [E|E]; simpl.
      - unfold wrap_text_to_width.
        pose proof (width_max_chars_raise
          (arg_view_width args - arg_left_margin args - arg_right_margin args) e) as Hr.
        pose proof (width_max_chars_ends
          (arg_view_width args - arg_left_margin args - arg_right_margin args)
          default_scale_factor default_avg_char_width) as He.
        destruct (width_max_chars _ _ _) as [n|e'|] eqn:Hn; simpl; [| |done].
        + split.
          * intros Hw%wrap_text_raise_cases. exfalso.
            destruct (pyfloat.of_int
              (arg_view_width args - arg_left_margin args - arg_right_margin args))
              as [x| |] eqn:Hx.
            -- rewrite (width_max_chars_spec _ x Hx) in Hn. injection Hn as <-.
               pose proof (planMaxChars_range
                 (arg_view_width args - arg_left_margin args - arg_right_margin args)).
               lia.
            -- by rewrite width_max_chars_default, Hx in Hn.
            -- by rewrite width_max_chars_default, Hx in Hn.
          * intros [[? _]|(_ & He' & Ho)]; [congruence|].
            discriminate (proj2 Hr (conj He' Ho)).
        + split.
          * intros [= ->]. right. split; [done|]. by apply Hr.
          * intros [[? _]|(_ & He' & Ho)]; [congruence|].
            pose proof (proj2 Hr (conj He' Ho)) as Hre. by injection Hre as ->.
      - rewrite wrap_text_raise_cases. split.
        + intros (? & ? & ?). by left.
        + intros [(_ & ? & ? & ?)|[? _]]; [done|congruence]. }
    destruct (main_lines alphabet isalnum isdecimal args text) as [out|e'|] eqn:E.
    + split; [by destruct (is_empty out)|]. intros [_ H]. by apply Hl in H.
    + split.
      * intros [= ->]. split; [done|]. by apply Hl.
      * intros [_ H]. apply Hl in H. by injection H as ->.
    + split; [done|]. intros [_ H]. by apply Hl in H.
  - intros Ho.
    destruct (decide (2 ^ 1023 <= Z.abs
      (arg_view_width args - arg_left_margin args - arg_right_margin args))%Z)
      as [|Hn]; [done|].
    destruct (of_int_returns
      (arg_view_width args - arg_left_margin args - arg_right_margin args))
      as [x Hx]; [lia|]. congruence.
Qed.

Lemma X17_witness :
  (2 ^ 1023 <= Z.abs
     (arg_view_width wide_args - arg_left_margin wide_args
      - arg_right_margin wide_args))%Z.
Proof.
  apply (proj2 (X17_main_uncaught_iff sample_alphabet ascii_isalnum
                  ascii_isdecimal wide_args (s2l "hi") OverflowError)).
  vm_compute. reflexivity.
Defined.

Lemma split_snoc_sep s sep : split (s ++ [sep]) sep = split s sep ++ [[]].
Proof.
  induction s as [|c s IH]; simpl.
  - by rewrite N.eqb_refl.
  - destruct (N.eqb c sep); [by rewrite IH|]. rewrite IH.
    pose proof (split_nonempty s sep). by destruct (split s sep).
Qed.

(** X18.  Input ended by two empty lines is rendered with an empty last
    line: whenever [main] calls [hand.write] for such a text, the last
    line of the call is the empty string. *)
Theorem X18_interactive_text_ends_with_empty_line (alphabet : list char)
    (isalnum isdecimal : char -> bool) (args : Args) (pre post : list str)
    (svg_height : Z) (call : WriteCall) :
  (∀ i, pre !! i = Some [] → pre !! S i ≠ Some []) →
  pre ≠ [] → last pre ≠ Some [] →
  main alphabet isalnum isdecimal args (interactive_mode (pre ++ [] :: [] :: post))
  = Write_svg svg_height call →
  last (lines call) = Some [].
Proof.
  intros Hno Hne Hlast.
  assert (Hi : interactive_mode (pre ++ [] :: [] :: post)
               = join_newline pre ++ [chr_newline]).
  { unfold interactive_mode.
    rewrite interactive_loop_app by (by left || done). simpl.
    clear Hno Hlast. induction pre as [|l pre IH]; [done|].
    destruct pre as [|l2 pre]; [done|].
    change (join_newline ((l :: l2 :: pre) ++ [[]]))
      with (l ++ chr_newline :: join_newline ((l2 :: pre) ++ [[]])).
    rewrite IH by done. simpl. by rewrite <- app_assoc. }
  rewrite Hi. set (text := join_newline pre ++ [chr_newline]).
  unfold main. destruct (is_empty (strip text)); [done|].
  destruct (main_lines alphabet isalnum isdecimal args text) as [out| |] eqn:E;
    [|done..].
  destruct (is_empty out); [done|]. intros [= <- <-]. simpl.
  assert (Hw : ∃ m, wrap_text isalnum isdecimal (validate_text alphabet text) m
                    = Return out).
  { unfold main_lines, wrap_text_to_width in E. destruct (negb _); [by eexists|].
    destruct (width_max_chars _ _ _) as [m| |]; simpl in E; [by eexists|done..]. }
  destruct Hw as [m (groups & H & ->)%wrap_text_return].
  rewrite validate_text_split in H. subst text.
  rewrite split_snoc_sep, map_app in H. simpl in H.
  apply Forall2_app_inv_l in H as (gs & g & _ & Hg & ->).
  inversion Hg as [|? g1 ? gs1 Hg1 Hgs1]; subst. inversion Hgs1; subst.
  change (validate_text alphabet []) with (@nil N) in Hg1.
  rewrite wrap_paragraph_blank in Hg1 by done. injection Hg1 as <-.
  rewrite concat_app. simpl. apply last_snoc.
Qed.

Lemma X18_witness :
  ∃ svg_height call,
    main sample_alphabet ascii_isalnum ascii_isdecimal default_args
      (interactive_mode ([s2l "hi"] ++ [] :: [] :: []))
    = Write_svg svg_height call
    ∧ last (lines call) = Some [].
Proof.
  pose (call := {| filename := arg_output default_args;
                   lines := [s2l "hi"; []];
                   biases := repeat (arg_bias default_args) 2;
                   styles := [3%Z; 3%Z];
                   stroke_colors := repeat (arg_color default_args) 2;
                   stroke_widths := repeat (arg_width default_args) 2;
                   left_margin := 50; right_margin := 50;
                   line_height := 60; view_width := 1000 |}).
  assert (E : main sample_alphabet ascii_isalnum ascii_isdecimal default_args
                (interactive_mode ([s2l "hi"] ++ [] :: [] :: []))
              = Write_svg 180 call)
    by (vm_compute; reflexivity).
  exists 180%Z, call. split; [exact E|].
  apply (X18_interactive_text_ends_with_empty_line sample_alphabet ascii_isalnum
           ascii_isdecimal default_args [s2l "hi"] [] 180 call).
  - intros [|i]; vm_compute; congruence.
  - discriminate.
  - vm_compute. discriminate.
  - exact E.
Defined.

Lemma X4_witness :
  validate_text_warning sample_alphabet (s2l "Hello" ++ [chr_tab; chr_newline])
  = None.
Proof.
  apply (proj2 (X4_no_warning_iff sample_alphabet
                  (s2l "Hello" ++ [chr_tab; chr_newline]))).
  apply (bool_decide_unpack _). vm_compute. exact I.
Defined.

Lemma X7_witness :
  wrap_text ascii_isalnum ascii_isdecimal (s2l "hi") (-3) = Raise ValueError.
Proof.
  apply (proj2 (X7_wrap_text_raises_iff ascii_isalnum ascii_isdecimal
                  (s2l "hi") (-3) ValueError)).
  split; [reflexivity|]. split; [reflexivity|].
  apply Exists_cons_hd. vm_compute. reflexivity.
Defined.

Lemma X16_witness :
  main sample_alphabet ascii_isalnum ascii_isdecimal default_args
    [chr_space; chr_newline; chr_tab]
  = Exit1 No_text_provided.
Proof.
  apply (proj2 (X16_main_no_text_iff sample_alphabet ascii_isalnum
                  ascii_isdecimal default_args [chr_space; chr_newline; chr_tab])).
  apply (bool_decide_unpack _). vm_compute. exact I.
Defined.
